(** * hue-lighter: the light-automation loop and the shutdown event bus

    A shallow embedding of

      - internal/services/light_automation/service.go  (Service)
      - internal/services/events/event-bus.go          (ExternalEventService)
      - internal/sunset                                (CalculateSunriseSunset)
      - internal/config                                (Config, validate)
      - internal/hue_client                            (the three light calls)

    The bridge, the wall clock and the solar library are external: they are
    an interface ([World]) that every theorem quantifies over.  Go methods
    on [*Service] become computations of a state-and-panic monad over the
    one shared service object; everything a method does to the outside
    (log lines, bridge calls, goroutine spawns, channel operations) is
    appended to a trace.

    Goroutines run one at a time: a method call, the start of a loop and a
    round of a select are each atomic, a loop is driven by the list of
    things that wake it, and a goroutine that has nothing left to wake it
    is parked, unless it waits on a closed channel: a receive from a closed
    channel never blocks.  Interleavings inside a method are not part of
    the model. *)

From Stdlib Require Import ZArith Lia Floats.
From stdpp Require Import base option list gmap strings.

Local Open Scope Z_scope.

(** ** package time *)

Definition Time := Z.       (* an instant, in nanoseconds *)
Definition Duration := Z.   (* int64 nanoseconds *)

Module time.

Definition Nanosecond : Duration := 1.
Definition Second : Duration := 1000000000 * Nanosecond.
Definition Minute : Duration := 60 * Second.

Definition minDuration : Duration := - 2 ^ 63.
Definition maxDuration : Duration := 2 ^ 63 - 1.

(* t.Sub(u): the difference, saturated to the range of a Duration. *)
Definition Sub (t u : Time) : Duration :=
  let d := t - u in
  if d <? minDuration then minDuration
  else if maxDuration <? d then maxDuration
  else d.

Definition Before (t u : Time) : bool := t <? u.
Definition After (t u : Time) : bool := u <? t.

(* The zero value of time.Time: January 1, year 1, 00:00 UTC, counted
   from the Unix epoch. *)
Definition zero : Time := - 62135596800 * Second.

Record Ticker := { period : Duration }.
Definition NewTicker (d : Duration) : Ticker := {| period := d |}.

End time.

(** ** package config *)

Module config.

Record Meta := { Version : string; MetaName : string; Description : string }.
Record Location := { Latitude : float; Longitude : float }.
Record Light := { ID : option string; Name : option string }.

Record Config := {
  meta : Meta;
  location : Location;
  Lights : list Light
}.

(* The loop of validate over c.Lights: the first light with neither id nor
   name ends it with an error. *)
Fixpoint validateLights (lights : list Light) : option string :=
  match lights with
  | [] => None
  | light :: rest =>
      if bool_decide (ID light = None) && bool_decide (Name light = None)
      then Some "light must have either ID or Name"%string
      else validateLights rest
  end.

(* func (c *Config) validate() error; a nil receiver is [None]. *)
Definition validate (c : option Config) : option string :=
  match c with
  | None => Some "config is nil"%string
  | Some c =>
      if ((Latitude (location c) <? -90) || (90 <? Latitude (location c)) ||
          (Longitude (location c) <? -180) || (180 <? Longitude (location c)))%float
      then Some "invalid location coordinates"%string
      else validateLights (Lights c)
  end.

End config.

(** ** package hueclient: what the automation loop consumes *)

Module hueclient.

Record LightOnState := { On : bool }.

(* Only the field the loop reads is kept. *)
Record LightListItem := { ItemID : string; OnState : LightOnState }.

End hueclient.

(* A Go [error]: nil is [None]. *)
Definition error := option string.

(** ** The outside world

    The bridge behind [*hueclient.Client], the wall clock behind
    [time.Now] and the solar library behind [sunrise.SunriseSunset].  Each
    call may change the world, so each returns the world it leaves. *)

Class World (W : Type) := {
  (* time.Now() *)
  time_Now : W -> Time * W;
  (* sunrise.SunriseSunset(latitude, longitude, year, month, day); the
     instant stands for the calendar date it falls on. *)
  sunrise_SunriseSunset : float -> float -> Time -> Time * Time;
  (* Client.GetOneLightById: (nil, err), (nil, nil) when the bridge
     answers with no data, or (&item, nil). *)
  client_GetOneLightById :
    string -> W -> (option hueclient.LightListItem * error) * W;
  (* Client.TurnOnLightById and Client.TurnOffLightById *)
  client_TurnOnLightById : string -> W -> error * W;
  client_TurnOffLightById : string -> W -> error * W
}.

(** ** What a run leaves behind *)

Inductive Level := Info | Warn | Error.

(* One constructor per log site. *)
Inductive Msg :=
  (* light_automation *)
  | MsgAlreadyRunning            (* "Light Automation Service is already running" *)
  | MsgStarting                  (* "Starting Light Automation Service" *)
  | MsgRunningLoop               (* "Running automation ticker loop" *)
  | MsgStoppingPeriodic          (* "Stopping periodic tasks." *)
  | MsgTick (tickTime : Time)    (* "Tick at %v" *)
  | MsgSunriseSunset (sunriseTime sunsetTime : Time)
  | MsgNighttime                 (* "It's nighttime and we've reached lights on time, ..." *)
  | MsgAlreadyOn (id : string)
  | MsgTurnOnFailed (id : string) (err : string)
  | MsgDaytime                   (* "It's daytime, lights should remain off" *)
  | MsgAlreadyOff (id : string)
  | MsgTurnOffFailed (id : string) (err : string)
  | MsgRefreshFailed (id : string) (err : string)
  | MsgNotRunning                (* "Light Automation Service is not running" *)
  | MsgStopping                  (* "Stopping Light Automation Service" *)
  (* events *)
  | MsgClosingListener           (* "Closing Unix socket listener" *)
  | MsgListenerClosed            (* "Unix socket listener closed, stopping event loop" *)
  | MsgAcceptFailed (err : string)
  | MsgListening                 (* "Listening for events on Unix socket: %q" *)
  | MsgReceivedShutdown          (* "Received shutdown event, stopping light automation service" *)
  | MsgTurnOffLightsFailed (err : string)  (* "Failed to stop and turn off lights" *)
  | MsgStopServiceFailed (err : string)    (* "Failed to stop light automation service" *)
  | MsgStartingEvents            (* "Starting External Event Service" *)
  | MsgStoppingEvents.           (* "Stopping External Event Service" *)

Inductive Event :=
  | EvLog (l : Level) (m : Msg)
  | EvGetOneLightById (id : string) (r : option hueclient.LightListItem * error)
  | EvTurnOnLightById (id : string) (err : error)
  | EvTurnOffLightById (id : string) (err : error)
  | EvGoTickerLoop               (* go s.runAutomationTickerLoop() *)
  | EvTickerStop                 (* s.ticker.Stop() *)
  | EvRefreshStamp (t : Time)    (* s.lastLightStateRefresh = time.Now() *)
  | EvSendStop                   (* s.stopChan <- struct{}{} *)
  | EvConnClose                  (* conn.Close() *)
  | EvListenerClose              (* s.listener.Close() *)
  | EvRemoveSocket               (* os.Remove(SOCKET_HUE_LIGHTER_EVENTS) *)
  | EvGoAcceptLoop.              (* go func() { ... }() in events.Start *)

#[global] Instance Level_eq_dec : EqDecision Level.
Proof. solve_decision. Defined.
#[global] Instance LightOnState_eq_dec : EqDecision hueclient.LightOnState.
Proof. solve_decision. Defined.
#[global] Instance LightListItem_eq_dec : EqDecision hueclient.LightListItem.
Proof. solve_decision. Defined.
#[global] Instance Msg_eq_dec : EqDecision Msg.
Proof. solve_decision. Defined.
#[global] Instance Event_eq_dec : EqDecision Event.
Proof. solve_decision. Defined.

(* A [chan struct{}] that is only ever closed or handed one value to a
   waiting receiver: all that matters is whether it is still open. *)
Inductive Chan := ChanOpen | ChanClosed.

Inductive PanicKind :=
  | NilPointerDereference
  | CloseOfClosedChannel
  | SendOnClosedChannel.

(** ** package light_automation: the service object *)

Record Service := {
  config : config.Config;
  ticker : option time.Ticker;
  tickerStop : Chan;
  lightStates : gmap string bool;
  lastLightStateRefresh : Time
}.

(* func NewService(client, config, logger) *Service *)
Definition NewService (cfg : config.Config) : Service :=
  {| config := cfg;
     ticker := None;
     tickerStop := ChanOpen;
     lightStates := ∅;
     lastLightStateRefresh := time.zero |}.

(** ** package events: the service object *)

Inductive Listener := ListenerOpen | ListenerClosed.

Record ExternalEventService := {
  listener : option Listener;
  stopChan : option Chan
}.

(* func NewExternalEventService(lightAutomation, logger, stopChan) *)
Definition NewExternalEventService (stopChan : option Chan) : ExternalEventService :=
  {| listener := None; stopChan := stopChan |}.

(** ** The process state and the monad of Go statements

    One [Sys] is the whole process: the world outside, the one
    [*light_automation.Service] that the tick goroutine, the event
    goroutine and [main] all point to, the event service, and the trace of
    what has been done so far (oldest first). *)

Record Sys (W : Type) := MkSys {
  world : W;
  svc : Service;
  evsvc : ExternalEventService;
  trace : list Event
}.
Arguments MkSys {W} _ _ _ _.
Arguments world {W} _.
Arguments svc {W} _.
Arguments evsvc {W} _.
Arguments trace {W} _.

(* A statement either completes with a value or panics; both leave a
   process state behind (a deferred call runs on the state at the panic). *)
Inductive Outcome (W A : Type) :=
  | Ok (a : A) (σ : Sys W)
  | Panic (p : PanicKind) (σ : Sys W).
Arguments Ok {W A} _ _.
Arguments Panic {W A} _ _.

Definition M (W A : Type) : Type := Sys W -> Outcome W A.

#[global] Instance M_ret {W} : MRet (M W) := fun A a σ => Ok a σ.

#[global] Instance M_bind {W} : MBind (M W) := fun A B f m σ =>
  match m σ with
  | Ok a σ' => f a σ'
  | Panic p σ' => Panic p σ'
  end.

Definition panic {W A} (p : PanicKind) : M W A := fun σ => Panic p σ.

(* The state a computation ends in, however it ends. *)
Definition final {W A} (o : Outcome W A) : Sys W :=
  match o with Ok _ σ => σ | Panic _ σ => σ end.

Definition panicked {W A} (o : Outcome W A) : bool :=
  match o with Ok _ _ => false | Panic _ _ => true end.

(* [*p] on a pointer that may be nil *)
Definition deref {W A} (p : option A) : M W A :=
  match p with
  | Some a => mret a
  | None => panic NilPointerDereference
  end.

Definition getSvc {W} : M W Service := fun σ => Ok (svc σ) σ.

Definition modifySvc {W} (f : Service -> Service) : M W unit := fun σ =>
  Ok tt (MkSys (world σ) (f (svc σ)) (evsvc σ) (trace σ)).

Definition getEvsvc {W} : M W ExternalEventService := fun σ => Ok (evsvc σ) σ.

Definition modifyEvsvc {W} (f : ExternalEventService -> ExternalEventService)
  : M W unit := fun σ =>
  Ok tt (MkSys (world σ) (svc σ) (f (evsvc σ)) (trace σ)).

Definition emit {W} (e : Event) : M W unit := fun σ =>
  Ok tt (MkSys (world σ) (svc σ) (evsvc σ) (trace σ ++ [e])).

Definition logf {W} (l : Level) (m : Msg) : M W unit := emit (EvLog l m).

(* A call into the world. *)
Definition call {W A} (op : W -> A * W) : M W A := fun σ =>
  let (a, w) := op (world σ) in
  Ok a (MkSys w (svc σ) (evsvc σ) (trace σ)).

(* for _, x := range xs { body } *)
Fixpoint forRange {W A} (xs : list A) (body : A -> M W unit) : M W unit :=
  match xs with
  | [] => mret tt
  | x :: rest => body x ;; forRange rest body
  end.

(* defer d; body: [d] runs when [body] returns or panics, and a panic of
   [d] replaces the one that was under way. *)
Definition defer {W A} (d : M W unit) (body : M W A) : M W A := fun σ =>
  match body σ with
  | Ok a σ' =>
      match d σ' with
      | Ok _ σ'' => Ok a σ''
      | Panic p σ'' => Panic p σ''
      end
  | Panic p σ' =>
      match d σ' with
      | Ok _ σ'' => Panic p σ''
      | Panic p' σ'' => Panic p' σ''
      end
  end.

(* Field assignments on the service object. *)
Definition set_ticker (t : option time.Ticker) (s : Service) : Service :=
  {| config := config s; ticker := t; tickerStop := tickerStop s;
     lightStates := lightStates s;
     lastLightStateRefresh := lastLightStateRefresh s |}.

Definition set_tickerStop (c : Chan) (s : Service) : Service :=
  {| config := config s; ticker := ticker s; tickerStop := c;
     lightStates := lightStates s;
     lastLightStateRefresh := lastLightStateRefresh s |}.

Definition set_lightState (id : string) (on : bool) (s : Service) : Service :=
  {| config := config s; ticker := ticker s; tickerStop := tickerStop s;
     lightStates := <[id := on]> (lightStates s);
     lastLightStateRefresh := lastLightStateRefresh s |}.

Definition set_lastLightStateRefresh (t : Time) (s : Service) : Service :=
  {| config := config s; ticker := ticker s; tickerStop := tickerStop s;
     lightStates := lightStates s;
     lastLightStateRefresh := t |}.

(* s.lightStates[id]: a missing key reads as false *)
Definition lightState (s : Service) (id : string) : bool :=
  default false (lightStates s !! id).

(** ** package sunset and package light_automation: the methods *)

Section LightAutomation.

Context {W : Type} `{World W}.

(* time.Since(t) *)
Definition time_Since (t : Time) : M W Duration :=
  now ← call time_Now;
  mret (time.Sub now t).

(* func CalculateSunriseSunset(latitude, longitude float64) (time.Time, time.Time) *)
Definition CalculateSunriseSunset (latitude longitude : float) : M W (Time * Time) :=
  now ← call time_Now;
  mret (sunrise_SunriseSunset latitude longitude now).

(* The three client calls, each leaving its result in the trace. *)
Definition GetOneLightById (id : string)
  : M W (option hueclient.LightListItem * error) :=
  r ← call (client_GetOneLightById id);
  emit (EvGetOneLightById id r) ;;
  mret r.

Definition TurnOnLightById (id : string) : M W error :=
  err ← call (client_TurnOnLightById id);
  emit (EvTurnOnLightById id err) ;;
  mret err.

Definition TurnOffLightById (id : string) : M W error :=
  err ← call (client_TurnOffLightById id);
  emit (EvTurnOffLightById id err) ;;
  mret err.

(* close(s.tickerStop) *)
Definition close_tickerStop : M W unit :=
  s ← getSvc;
  match tickerStop s with
  | ChanClosed => panic CloseOfClosedChannel
  | ChanOpen => modifySvc (set_tickerStop ChanClosed)
  end.

(* func (s *Service) Stop() *)
Definition Stop : M W unit :=
  s ← getSvc;
  match ticker s with
  | None => logf Warn MsgNotRunning
  | Some _ =>
      logf Info MsgStopping ;;
      s ← getSvc;
      match ticker s with
      | Some _ => emit EvTickerStop ;; modifySvc (set_ticker None)
      | None => mret tt
      end ;;
      close_tickerStop
  end.

(* The body of the loop of setLightsState for one light. *)
Definition setLightState (turnOn : bool) (lightCfg : config.Light) : M W unit :=
  if turnOn then
    logf Info MsgNighttime ;;
    id ← deref (config.ID lightCfg);
    s ← getSvc;
    if lightState s id then
      logf Info (MsgAlreadyOn id)
    else
      err ← TurnOnLightById id;
      match err with
      | Some e => logf Error (MsgTurnOnFailed id e)
      | None => mret tt
      end ;;
      modifySvc (set_lightState id true)
  else
    logf Info MsgDaytime ;;
    id ← deref (config.ID lightCfg);
    s ← getSvc;
    if negb (lightState s id) then
      logf Info (MsgAlreadyOff id)
    else
      err ← TurnOffLightById id;
      match err with
      | Some e => logf Error (MsgTurnOffFailed id e)
      | None => mret tt
      end ;;
      modifySvc (set_lightState id false).

(* func (s *Service) setLightsState(turnOn bool) *)
Definition setLightsState (turnOn : bool) : M W unit :=
  s ← getSvc;
  forRange (config.Lights (config s)) (setLightState turnOn).

(* The body of the loop of refreshLightStates for one light. *)
Definition refreshLightState (lightCfg : config.Light) : M W unit :=
  id ← deref (config.ID lightCfg);
  r ← GetOneLightById id;
  match r.2 with
  | None =>
      state ← deref r.1;
      modifySvc (set_lightState id (hueclient.On (hueclient.OnState state)))
  | Some e => logf Warn (MsgRefreshFailed id e)
  end.

(* func (s *Service) refreshLightStates() *)
Definition refreshLightStates : M W unit :=
  s ← getSvc;
  forRange (config.Lights (config s)) refreshLightState ;;
  now ← call time_Now;
  modifySvc (set_lastLightStateRefresh now) ;;
  emit (EvRefreshStamp now).

(* isNight := tickTime.Before(sunriseTime) || tickTime.After(sunsetTime) *)
Definition isNight (tickTime sunriseTime sunsetTime : Time) : bool :=
  time.Before tickTime sunriseTime || time.After tickTime sunsetTime.

(* func (s *Service) runAutomation() *)
Definition runAutomation : M W unit :=
  tickTime ← call time_Now;
  logf Info (MsgTick tickTime) ;;
  s ← getSvc;
  elapsed ← time_Since (lastLightStateRefresh s);
  (if 5 * time.Minute <? elapsed then refreshLightStates else mret tt) ;;
  s ← getSvc;
  times ← CalculateSunriseSunset (config.Latitude (config.location (config s)))
                                 (config.Longitude (config.location (config s)));
  logf Info (MsgSunriseSunset times.1 times.2) ;;
  if isNight tickTime times.1 times.2 then
    setLightsState true
  else
    setLightsState false.

(* The case a select of the ticker loop takes: a value on s.ticker.C, or
   the stop case.  The stop case is ready only once s.tickerStop is closed,
   and from then on at every select; when a tick is ready as well the
   runtime picks either. *)
Inductive Wake := WakeTick | WakeStop.

(* Whether a goroutine running a loop has returned or is still parked. *)
Inductive LoopStatus := Returned | Parked.

(* for { select { case <-s.ticker.C: ...; case <-s.tickerStop: ... } }
   A select with nothing listed to take finds no tick ready: it blocks
   while s.tickerStop is open, and takes the stop case once it is closed. *)
Fixpoint tickerSelectLoop (wakes : list Wake) : M W LoopStatus :=
  s ← getSvc;
  _ ← deref (ticker s);                        (* s.ticker.C *)
  match wakes with
  | [] =>
      match tickerStop s with
      | ChanClosed => logf Info MsgStoppingPeriodic ;; mret Returned
      | ChanOpen => mret Parked
      end
  | WakeTick :: rest =>
      runAutomation ;;
      tickerSelectLoop rest
  | WakeStop :: rest =>
      match tickerStop s with
      | ChanClosed => logf Info MsgStoppingPeriodic ;; mret Returned
      | ChanOpen => tickerSelectLoop rest      (* not ready: still parked *)
      end
  end.

(* A deferred call of a loop goroutine runs once the loop is left, not
   while the goroutine is parked in it. *)
Definition deferLoop (d : M W unit) (body : M W LoopStatus) : M W LoopStatus :=
  fun σ =>
    match body σ with
    | Ok Parked σ' => Ok Parked σ'
    | _ => defer d body σ
    end.

(* func (s *Service) runAutomationTickerLoop() *)
Definition runAutomationTickerLoop (wakes : list Wake) : M W LoopStatus :=
  logf Info MsgRunningLoop ;;
  deferLoop Stop
    (refreshLightStates ;;
     tickerSelectLoop wakes).

(* func (s *Service) Start() error *)
Definition Start : M W error :=
  s ← getSvc;
  match ticker s with
  | Some _ =>
      logf Warn MsgAlreadyRunning ;;
      mret None
  | None =>
      logf Info MsgStarting ;;
      modifySvc (set_ticker (Some (time.NewTicker (1 * time.Second)))) ;;
      emit EvGoTickerLoop ;;
      mret None
  end.

(* func (s *Service) StopAndTurnOffLights() error *)
Definition StopAndTurnOffLights : M W error :=
  Stop ;;
  setLightsState false ;;
  mret None.

End LightAutomation.

(** ** package events: the listener goroutine *)

(** Modelled from the spec: the constant EVENT_TYPE_SHUTDOWN, whose
    declaration is not among the sources; the spec gives the fixed payload
    as the message ["shutdown"]. *)
Definition EVENT_TYPE_SHUTDOWN : string := "shutdown".

(* What one listener.Accept() hands to the loop. *)
Inductive AcceptResult :=
  | AcceptErrClosed              (* an error that is net.ErrClosed *)
  | AcceptErr (err : string)     (* any other error *)
  | AcceptConn (data : string).  (* a connection, with string(buf[:n]) of its one Read *)

Definition set_listener (l : option Listener) (e : ExternalEventService)
  : ExternalEventService :=
  {| listener := l; stopChan := stopChan e |}.

Section Events.

Context {W : Type} `{World W}.

(* s.stopChan <- struct{}{}, with main parked on the receiving end *)
Definition send_stopChan (c : Chan) : M W unit :=
  match c with
  | ChanClosed => panic SendOnClosedChannel
  | ChanOpen => emit EvSendStop
  end.

(* s.listener.Close() *)
Definition close_listener : M W unit :=
  modifyEvsvc (set_listener (Some ListenerClosed)) ;;
  emit EvListenerClose.

(* The deferred conn.Close() of every connection accepted so far. *)
Fixpoint closeConns (conns : nat) : M W unit :=
  match conns with
  | O => mret tt
  | S n => emit EvConnClose ;; closeConns n
  end.

(* The body of the if for a connection that carries the shutdown payload.
   StopAndTurnOffLights never returns an error, but both checks of err
   are there. *)
Definition serveShutdown : M W LoopStatus :=
  logf Info MsgReceivedShutdown ;;
  err ← StopAndTurnOffLights;
  match err with
  | Some e => logf Error (MsgTurnOffLightsFailed e)
  | None => mret tt
  end ;;
  e ← getEvsvc;
  match stopChan e with
  | Some c => send_stopChan c
  | None => mret tt
  end ;;
  match err with
  | Some e => logf Error (MsgStopServiceFailed e)
  | None => mret tt
  end ;;
  mret Returned.

(* The for loop of the goroutine of Start; [conns] counts the deferred
   conn.Close() calls registered so far. *)
Fixpoint acceptLoop (incoming : list AcceptResult) (conns : nat) : M W LoopStatus :=
  match incoming with
  | [] => mret Parked
  | AcceptErrClosed :: _ =>
      logf Info MsgListenerClosed ;;
      closeConns conns ;;
      mret Returned
  | AcceptErr e :: rest =>
      logf Error (MsgAcceptFailed e) ;;
      acceptLoop rest conns
  | AcceptConn data :: rest =>
      logf Info MsgListening ;;
      if bool_decide (data = EVENT_TYPE_SHUTDOWN) then
        defer (closeConns (S conns)) serveShutdown
      else
        acceptLoop rest (S conns)
  end.

(* The goroutine started by (s *ExternalEventService) Start(). *)
Definition eventLoop (incoming : list AcceptResult) : M W LoopStatus :=
  deferLoop
    (logf Info MsgClosingListener ;;
     close_listener ;;
     emit EvRemoveSocket)
    (acceptLoop incoming 0).

(* func (s *ExternalEventService) Start() error; [listenErr] is what
   net.Listen returned. *)
Definition events_Start (listenErr : error) : M W error :=
  match listenErr with
  | Some e => mret (Some ("failed to start Unix socket listener: " +:+ e))
  | None =>
      modifyEvsvc (set_listener (Some ListenerOpen)) ;;
      emit EvGoAcceptLoop ;;
      logf Info MsgStartingEvents ;;
      mret None
  end.

(* func (s *ExternalEventService) Stop() error *)
Definition events_Stop : M W error :=
  logf Info MsgStoppingEvents ;;
  e ← getEvsvc;
  match listener e with
  | Some _ => logf Info MsgClosingListener ;; close_listener
  | None => mret tt
  end ;;
  mret None.

End Events.

(** ** The ticker goroutine woken out of its select, and package app

    The operands of the select of the ticker loop, s.ticker.C and
    s.tickerStop, are evaluated when the goroutine parks in it, so waking
    it dereferences nothing: a tick left in the channel of a ticker that
    has been stopped since is still received.  After the tick the loop
    comes back to the select and evaluates the operands afresh. *)

Section Woken.

Context {W : Type} `{World W}.

(* The select the goroutine is parked in, and the loop from there on. *)
Fixpoint tickerLoopWoken (wakes : list Wake) : M W LoopStatus :=
  match wakes with
  | [] =>
      s ← getSvc;
      match tickerStop s with
      | ChanClosed => logf Info MsgStoppingPeriodic ;; mret Returned
      | ChanOpen => mret Parked
      end
  | WakeTick :: rest =>
      runAutomation ;;
      tickerSelectLoop rest
  | WakeStop :: rest =>
      s ← getSvc;
      match tickerStop s with
      | ChanClosed => logf Info MsgStoppingPeriodic ;; mret Returned
      | ChanOpen => tickerLoopWoken rest
      end
  end.

(* The goroutine of runAutomationTickerLoop from the select it is parked
   in, with its deferred s.Stop(). *)
Definition resumeTickerLoop (wakes : list Wake) : M W LoopStatus :=
  deferLoop Stop (tickerLoopWoken wakes).

(* func (a *App) Stop() error; both results are dropped.  The lines of the
   application's own logger are not part of the trace. *)
Definition app_Stop : M W error :=
  Stop ;;
  _ ← events_Stop;
  mret None.

End Woken.

(** ** A simulated bridge

    A concrete world to run the model in: a clock, the true state of every
    light the bridge knows, and the lights whose requests currently fail.
    Every call takes one millisecond.  Sunrise is at 06:00 and sunset at
    20:00 of the day the given instant falls on. *)

Record Sim := MkSim {
  clock : Time;
  actual : gmap string bool;
  unreachable : list string
}.

Definition Sim_latency : Duration := 1000000 * time.Nanosecond.
Definition Hour : Duration := 60 * time.Minute.
Definition Day : Duration := 24 * Hour.

Definition Sim_elapse (w : Sim) : Sim :=
  MkSim (clock w + Sim_latency) (actual w) (unreachable w).

Definition Sim_Now (w : Sim) : Time * Sim := (clock w, Sim_elapse w).

Definition Sim_SunriseSunset (_ _ : float) (now : Time) : Time * Time :=
  let midnight := (now `div` Day) * Day in
  (midnight + 6 * Hour, midnight + 20 * Hour).

Definition Sim_Get (id : string) (w : Sim)
  : (option hueclient.LightListItem * error) * Sim :=
  if bool_decide (id ∈ unreachable w) then
    ((None, Some "bridge unreachable"%string), Sim_elapse w)
  else
    match actual w !! id with
    | Some on =>
        ((Some {| hueclient.ItemID := id;
                  hueclient.OnState := {| hueclient.On := on |} |}, None),
         Sim_elapse w)
    | None => ((None, Some "light not found"%string), Sim_elapse w)
    end.

Definition Sim_Switch (on : bool) (id : string) (w : Sim) : error * Sim :=
  if bool_decide (id ∈ unreachable w) then
    (Some "bridge unreachable"%string, Sim_elapse w)
  else
    (None, MkSim (clock w + Sim_latency) (<[id := on]> (actual w)) (unreachable w)).

#[global] Instance Sim_World : World Sim := {|
  time_Now := Sim_Now;
  sunrise_SunriseSunset := Sim_SunriseSunset;
  client_GetOneLightById := Sim_Get;
  client_TurnOnLightById := Sim_Switch true;
  client_TurnOffLightById := Sim_Switch false
|}.

(* A configuration with the given lights, somewhere near Berlin. *)
Definition cfgOf (lights : list config.Light) : config.Config :=
  {| config.meta := {| config.Version := "1"; config.MetaName := "hue-lighter";
                       config.Description := "" |};
     config.location := {| config.Latitude := 52.5; config.Longitude := 13.5 |};
     config.Lights := lights |}.

Definition byID (id : string) : config.Light :=
  {| config.ID := Some id; config.Name := None |}.

Definition byName (name : string) : config.Light :=
  {| config.ID := None; config.Name := Some name |}.

(* The process right after Bootstrap: a fresh service, a stop channel for
   main, an empty trace. *)
Definition boot {W} (w : W) (cfg : config.Config) : Sys W :=
  MkSys w (NewService cfg) (NewExternalEventService (Some ChanOpen)) [].

(** ** Vocabulary of the properties *)

(* How often the bridge was asked to switch a light on or off, or asked
   for a light's state, in a trace. *)
Definition isSwitch (turnOn : bool) (id : string) (e : Event) : bool :=
  match e with
  | EvTurnOnLightById id' _ => turnOn && bool_decide (id' = id)
  | EvTurnOffLightById id' _ => negb turnOn && bool_decide (id' = id)
  | _ => false
  end.

Definition isGet (e : Event) : bool :=
  match e with EvGetOneLightById _ _ => true | _ => false end.

Definition isRefreshStamp (e : Event) : bool :=
  match e with EvRefreshStamp _ => true | _ => false end.

Definition countEv (p : Event -> bool) (tr : list Event) : nat :=
  length (List.filter p tr).

Definition switchCalls (turnOn : bool) (id : string) (tr : list Event) : nat :=
  countEv (isSwitch turnOn id) tr.

Definition turnOnCalls (id : string) (tr : list Event) : nat :=
  switchCalls true id tr.

Definition turnOffCalls (id : string) (tr : list Event) : nat :=
  switchCalls false id tr.

Definition refreshPasses (tr : list Event) : nat :=
  countEv isRefreshStamp tr.

(* Every configured light is addressed by id. *)
Definition allByID (cfg : config.Config) : Prop :=
  Forall (fun l => config.ID l <> None) (config.Lights cfg).

(* The ids of the configured lights, in configuration order. *)
Definition lightIDs (cfg : config.Config) : list string :=
  omap config.ID (config.Lights cfg).

(* A state with more events in its trace, or with another world. *)
Definition logged {W} (σ : Sys W) (evs : list Event) : Sys W :=
  MkSys (world σ) (svc σ) (evsvc σ) (trace σ ++ evs).

Definition withWorld {W} (w : W) (σ : Sys W) : Sys W :=
  MkSys w (svc σ) (evsvc σ) (trace σ).

Definition withSvc {W} (f : Service -> Service) (σ : Sys W) : Sys W :=
  MkSys (world σ) (f (svc σ)) (evsvc σ) (trace σ).

Definition withEvsvc {W} (f : ExternalEventService -> ExternalEventService)
  (σ : Sys W) : Sys W :=
  MkSys (world σ) (svc σ) (f (evsvc σ)) (trace σ).

(* The two branches of setLightsState, read off by the commanded value. *)
Definition switchLight {W} `{World W} (turnOn : bool) : string -> W -> error * W :=
  if turnOn then client_TurnOnLightById else client_TurnOffLightById.

Definition phaseMsg (turnOn : bool) : Msg :=
  if turnOn then MsgNighttime else MsgDaytime.

Definition skipMsg (turnOn : bool) (id : string) : Msg :=
  if turnOn then MsgAlreadyOn id else MsgAlreadyOff id.

Definition switchEv (turnOn : bool) (id : string) (err : error) : Event :=
  if turnOn then EvTurnOnLightById id err else EvTurnOffLightById id err.

Definition failLog (turnOn : bool) (id : string) (err : error) : list Event :=
  match err with
  | Some e => [EvLog Error (if turnOn then MsgTurnOnFailed id e
                            else MsgTurnOffFailed id e)]
  | None => []
  end.

(* The clock readings of a tick that starts in σ: the one kept as
   tickTime, and the one time.Since compares with the last refresh. *)
Definition tickTime {W} `{World W} (σ : Sys W) : Time :=
  (time_Now (world σ)).1.

Definition checkTime {W} `{World W} (σ : Sys W) : Time :=
  (time_Now (time_Now (world σ)).2).1.

(* The condition of the if of runAutomation, for a tick that starts in σ. *)
Definition refreshDue {W} `{World W} (σ : Sys W) : bool :=
  5 * time.Minute <? time.Sub (checkTime σ) (lastLightStateRefresh (svc σ)).

(* The state of a tick that starts in σ when it reaches that if. *)
Definition atCheck {W} `{World W} (σ : Sys W) : Sys W :=
  withWorld (time_Now (time_Now (world σ)).2).2
    (logged σ [EvLog Info (MsgTick (tickTime σ))]).

(* The rest of runAutomation after the if, given the tick time. *)
Definition commandPhase {W} `{World W} (tickT : Time) : M W unit :=
  s ← getSvc;
  times ← CalculateSunriseSunset (config.Latitude (config.location (config s)))
                                 (config.Longitude (config.location (config s)));
  logf Info (MsgSunriseSunset times.1 times.2) ;;
  if isNight tickT times.1 times.2 then
    setLightsState true
  else
    setLightsState false.

(* The bridge never answers a fetch with neither data nor an error. *)
Definition neverEmpty (W : Type) `{World W} : Prop :=
  forall id (w : W), (client_GetOneLightById id w).1 <> (None, None).

(* Whether a pass commanding [turnOn] over [lights] commands light [id]. *)
Definition commanded {W} (turnOn : bool) (lights : list config.Light) (σ : Sys W) (id : string) : bool :=
  bool_decide (Some id ∈ config.ID <$> lights) &&
  bool_decide (lightState (svc σ) id = negb turnOn).

(* The events a command pass with the given value may leave, and those a
   refresh of the lights may leave. *)
Definition isPassEv (turnOn : bool) (e : Event) : bool :=
  match e with
  | EvLog Info MsgNighttime
  | EvLog Info (MsgAlreadyOn _)
  | EvLog Error (MsgTurnOnFailed _ _)
  | EvTurnOnLightById _ _ => turnOn
  | EvLog Info MsgDaytime
  | EvLog Info (MsgAlreadyOff _)
  | EvLog Error (MsgTurnOffFailed _ _)
  | EvTurnOffLightById _ _ => negb turnOn
  | _ => false
  end.

(* The events the part of a tick after the refresh may leave. *)
Definition isCommandEv (e : Event) : bool :=
  match e with
  | EvLog Info (MsgSunriseSunset _ _) => true
  | _ => isPassEv true e || isPassEv false e
  end.

Definition isFetchEv (e : Event) : bool :=
  match e with
  | EvLog Warn (MsgRefreshFailed _ _) | EvGetOneLightById _ _ => true
  | _ => false
  end.

(* The lines a tick starts with, and the spawns of the ticker loop. *)
Definition isTickLog (e : Event) : bool :=
  match e with EvLog Info (MsgTick _) => true | _ => false end.

Definition isGoTickerLoop (e : Event) : bool :=
  match e with EvGoTickerLoop => true | _ => false end.

Definition ticksRun (tr : list Event) : nat := countEv isTickLog tr.

Definition tickLoopsSpawned (tr : list Event) : nat := countEv isGoTickerLoop tr.

(* σ' has the trace of σ and then only events that satisfy [Q]. *)
Definition extends {W} (Q : Event -> bool) (σ σ' : Sys W) : Prop :=
  exists d, trace σ' = trace σ ++ d /\ Forall (fun e => Q e = true) d.

(* The fields no command pass and no refresh of a light assigns. *)
Definition sameControl {W} (σ σ' : Sys W) : Prop :=
  config (svc σ') = config (svc σ) /\
  ticker (svc σ') = ticker (svc σ) /\
  tickerStop (svc σ') = tickerStop (svc σ) /\
  lastLightStateRefresh (svc σ') = lastLightStateRefresh (svc σ) /\
  evsvc σ' = evsvc σ.

(* The fields only Start, Stop and the event service assign. *)
Definition sameWiring {W} (σ σ' : Sys W) : Prop :=
  config (svc σ') = config (svc σ) /\
  ticker (svc σ') = ticker (svc σ) /\
  tickerStop (svc σ') = tickerStop (svc σ) /\
  evsvc σ' = evsvc σ.

(* The lights a trace shows a fetch for, in order. *)
Definition fetchedIDs (tr : list Event) : list string :=
  omap (fun e => match e with
                 | EvGetOneLightById id _ => Some id
                 | _ => None
                 end) tr.

(* The clock never runs backwards: [instant] tells the time a world is at,
   a reading of the clock lies between the instants before and after it,
   and no call to the bridge takes the world back in time. *)
Definition monotoneClock {W} `{World W} (instant : W -> Time) : Prop :=
  (forall w, instant w <= (time_Now w).1 /\
             (time_Now w).1 <= instant (time_Now w).2) /\
  (forall id w, instant w <= instant (client_GetOneLightById id w).2) /\
  (forall id w, instant w <= instant (client_TurnOnLightById id w).2) /\
  (forall id w, instant w <= instant (client_TurnOffLightById id w).2).

(* What the accept loop passes over: an accept error other than the
   closed listener, or a connection that does not carry the shutdown
   payload. *)
Definition passedOver (r : AcceptResult) : bool :=
  match r with
  | AcceptErrClosed => false
  | AcceptErr _ => true
  | AcceptConn data => negb (bool_decide (data = EVENT_TYPE_SHUTDOWN))
  end.

(* The line the accept loop logs for it, and the connections it leaves
   open until the goroutine returns. *)
Definition acceptLog (r : AcceptResult) : Event :=
  match r with
  | AcceptErr e => EvLog Error (MsgAcceptFailed e)
  | _ => EvLog Info MsgListening
  end.

Definition isConn (r : AcceptResult) : bool :=
  match r with AcceptConn _ => true | _ => false end.

Definition connsOf (rs : list AcceptResult) : nat :=
  length (List.filter isConn rs).

(* Entries into Stop (it logs one of two lines first), served shutdown
   requests, and signals on the stop channel of main. *)
Definition isStopEntry (e : Event) : bool :=
  match e with
  | EvLog Warn MsgNotRunning | EvLog Info MsgStopping => true
  | _ => false
  end.

Definition isReceivedShutdown (e : Event) : bool :=
  match e with EvLog Info MsgReceivedShutdown => true | _ => false end.

Definition isSendStop (e : Event) : bool :=
  match e with EvSendStop => true | _ => false end.

Definition stopCalls (tr : list Event) : nat := countEv isStopEntry tr.
Definition shutdownsServed (tr : list Event) : nat := countEv isReceivedShutdown tr.
Definition stopSignals (tr : list Event) : nat := countEv isSendStop tr.

(* The ticks in a list of wake-ups. *)
Definition isWakeTick (w : Wake) : bool :=
  match w with WakeTick => true | WakeStop => false end.

Definition ticksIn (wakes : list Wake) : nat :=
  length (List.filter isWakeTick wakes).

(* The state the last successful fetch of a light in a trace reported. *)
Definition fetchedOn (id : string) (e : Event) : option bool :=
  match e with
  | EvGetOneLightById id' (Some item, None) =>
      if bool_decide (id' = id)
      then Some (hueclient.On (hueclient.OnState item)) else None
  | _ => None
  end.

Definition fetchedState (id : string) (tr : list Event) : option bool :=
  last (omap (fetchedOn id) tr).

(* A fetch that came back with neither a light nor an error. *)
Definition isEmptyFetch (e : Event) : bool :=
  match e with EvGetOneLightById _ (None, None) => true | _ => false end.

(* Calls to the bridge of any kind. *)
Definition isBridgeCall (e : Event) : bool :=
  match e with
  | EvGetOneLightById _ _ | EvTurnOnLightById _ _ | EvTurnOffLightById _ _ => true
  | _ => false
  end.


(* A configured light, by id. *)
Definition configured {W} (σ : Sys W) (id : string) : Prop :=
  Some id ∈ config.ID <$> config.Lights (config (svc σ)).

(* The events a tick may leave after the line it starts with. *)
Definition isTickEv (e : Event) : bool :=
  isFetchEv e || isRefreshStamp e || isCommandEv e.

(* The ticks the selects of a loop take before they first take the stop
   case. *)
Fixpoint ticksTaken (wakes : list Wake) : nat :=
  match wakes with
  | WakeTick :: rest => S (ticksTaken rest)
  | _ => O
  end.

(** ** Runs on the simulated bridge *)

(* Someone switches a light by hand, behind the back of the service. *)
Definition switchedByHand (id : string) (on : bool) (σ : Sys Sim) : Sys Sim :=
  withWorld (MkSim (clock (world σ)) (<[id := on]> (actual (world σ)))
               (unreachable (world σ))) σ.

(* The bridge becomes reachable again for every light. *)
Definition reachableAgain (σ : Sys Sim) : Sys Sim :=
  withWorld (MkSim (clock (world σ)) (actual (world σ)) []) σ.

(* The clock is put forward. *)
Definition later (d : Duration) (σ : Sys Sim) : Sys Sim :=
  withWorld (MkSim (clock (world σ) + d) (actual (world σ))
               (unreachable (world σ))) σ.

(* The bridge loses the given lights. *)
Definition unreachableNow (ids : list string) (σ : Sys Sim) : Sys Sim :=
  withWorld (MkSim (clock (world σ)) (actual (world σ)) ids) σ.

(* Nine in the evening, light L1 is off; the service is started and its
   loop has refreshed the cache; then the bridge loses L1. *)
Definition nightUnreachable : Sys Sim :=
  unreachableNow ["L1"%string]
    (final ((Start ;; runAutomationTickerLoop [])
              (boot (MkSim (21 * Hour) {[ "L1"%string := false ]} [])
                    (cfgOf [byID "L1"])))).

(* Noon, light L1 is off; the service is started, its loop refreshes the
   cache and runs one tick; then someone switches L1 on by hand. *)
Definition noonSwitchedOn : Sys Sim :=
  switchedByHand "L1" true
    (final ((Start ;; runAutomationTickerLoop [WakeTick])
              (boot (MkSim (12 * Hour) {[ "L1"%string := false ]} [])
                    (cfgOf [byID "L1"])))).

(* Nine in the evening, lights L1 and L2 are off, the service is fresh. *)
Definition nightTwoLights : Sys Sim :=
  boot (MkSim (21 * Hour) {[ "L1"%string := false; "L2"%string := false ]} [])
       (cfgOf [byID "L1"; byID "L2"]).

(* The same evening once the service is started and its loop has
   refreshed the cache and run one tick: both lights are on. *)
Definition nightRunning : Sys Sim :=
  final ((Start ;; runAutomationTickerLoop [WakeTick]) nightTwoLights).

(* A configuration with a light that has a name but no id. *)
Definition nightNameOnly : Sys Sim :=
  boot (MkSim (21 * Hour) {[ "L1"%string := false ]} [])
       (cfgOf [byID "L1"; byName "Lamp"]).

(* What the listener is handed: an accept error, a connection with some
   other payload, and two connections with the shutdown payload. *)
Definition incomingTwice : list AcceptResult :=
  [AcceptErr "interrupted"; AcceptConn "ping";
   AcceptConn EVENT_TYPE_SHUTDOWN; AcceptConn EVENT_TYPE_SHUTDOWN].

(* Six minutes after the first tick of that evening, with L1 switched off
   by hand in the meantime. *)
Definition nightL1SwitchedOff : Sys Sim :=
  later (6 * time.Minute) (switchedByHand "L1" false nightRunning).

(* That evening after a shutdown request was served. *)
Definition nightShutDown : Sys Sim :=
  final (StopAndTurnOffLights nightRunning).


(* The running service once main has closed its stop channel. *)
Definition nightMainGone : Sys Sim :=
  withEvsvc (fun e => {| listener := Some ListenerOpen;
                         stopChan := Some ChanClosed |}) nightRunning.

(** ** A bridge that has forgotten lights

    The simulated bridge again, except that asked for one of the lights it
    has forgotten it answers with no data and no error, which
    Client.GetOneLightById hands on as (nil, nil). *)

Record Forgetful := MkForgetful {
  bridge : Sim;
  forgotten : list string
}.

Definition Forgetful_lift {A} (op : Sim -> A * Sim) (w : Forgetful)
  : A * Forgetful :=
  let (a, b) := op (bridge w) in (a, MkForgetful b (forgotten w)).

Definition Forgetful_Get (id : string) (w : Forgetful)
  : (option hueclient.LightListItem * error) * Forgetful :=
  if bool_decide (id ∈ forgotten w) then
    ((None, None), MkForgetful (Sim_elapse (bridge w)) (forgotten w))
  else
    Forgetful_lift (Sim_Get id) w.

#[global] Instance Forgetful_World : World Forgetful := {|
  time_Now := Forgetful_lift Sim_Now;
  sunrise_SunriseSunset := Sim_SunriseSunset;
  client_GetOneLightById := Forgetful_Get;
  client_TurnOnLightById := fun id => Forgetful_lift (Sim_Switch true id);
  client_TurnOffLightById := fun id => Forgetful_lift (Sim_Switch false id)
|}.

(* Nine in the evening, L1 and L2 are configured, the bridge has forgotten
   L2, and the service has just been started. *)
Definition nightForgotten : Sys Forgetful :=
  final (Start (boot (MkForgetful
                        (MkSim (21 * Hour) {[ "L1"%string := false ]} [])
                        ["L2"%string])
                     (cfgOf [byID "L1"; byID "L2"]))).

(** ** Proof tools *)

(* Unfolding the monad. *)
Ltac mred :=
  cbv beta iota zeta delta
    [mbind mret M_bind M_ret logf emit getSvc getEvsvc modifySvc modifyEvsvc
     call deref panic negb];
  cbn [world svc evsvc trace fst snd].

(* Closing a goal with a fact that differs from it only in how the trace
   is bracketed. *)
Ltac same_state pf :=
  let Hs := fresh "Hs" in
  pose proof pf as Hs;
  unfold logged, withWorld, withSvc in Hs; cbn [world svc evsvc trace] in Hs;
  rewrite <- ?app_assoc; rewrite <- ?app_assoc in Hs; exact Hs.

(** ** Properties *)

Section Properties.

Context {W : Type} `{World W}.

Implicit Types (σ : Sys W) (id : string) (l : config.Light).

(** *** Day and night *)

Lemma isNight_spec (now sunriseT sunsetT : Time) :
  isNight now sunriseT sunsetT = true <-> now < sunriseT \/ sunsetT < now.
Proof.
  unfold isNight, time.Before, time.After.
  rewrite orb_true_iff, !Z.ltb_lt. reflexivity.
Qed.

(** C4. A tick at [now] is classified as night exactly when [now] is
    before sunrise or after sunset.  With sunrise no later than sunset, the
    instants of sunrise and of sunset themselves are day, while any
    positive duration before sunrise or after sunset is night. *)
Theorem day_night_classification (now sunriseT sunsetT : Time) :
  (isNight now sunriseT sunsetT = true <-> now < sunriseT \/ now > sunsetT) /\
  (sunriseT <= sunsetT ->
     isNight sunriseT sunriseT sunsetT = false /\
     isNight sunsetT sunriseT sunsetT = false) /\
  (forall d : Duration, 0 < d ->
     isNight (sunriseT - d) sunriseT sunsetT = true /\
     isNight (sunsetT + d) sunriseT sunsetT = true).
Proof.
  split; [|split].
  - rewrite isNight_spec. lia.
  - intros Hle. split; apply not_true_is_false; rewrite isNight_spec; lia.
  - intros d Hd. split; apply isNight_spec; lia.
Qed.

(** *** How one statement runs *)

Lemma bind_run {A B} (m : M W A) (f : A -> M W B) σ :
  (m ≫= f) σ =
  match m σ with Ok a σ' => f a σ' | Panic p σ' => Panic p σ' end.
Proof. reflexivity. Qed.

Lemma forRange_cons {A} (x : A) (rest : list A) (body : A -> M W unit) σ :
  forRange (x :: rest) body σ =
  match body x σ with
  | Ok _ σ' => forRange rest body σ'
  | Panic p σ' => Panic p σ'
  end.
Proof. reflexivity. Qed.

(* One light of a command pass: a nil id panics, a light already cached at
   the commanded value is skipped, any other light is commanded and then
   cached at the commanded value. *)
Inductive LightStep (turnOn : bool) l σ : Outcome W unit -> Prop :=
  | LightStep_nil :
      config.ID l = None ->
      LightStep turnOn l σ
        (Panic NilPointerDereference (logged σ [EvLog Info (phaseMsg turnOn)]))
  | LightStep_skip id :
      config.ID l = Some id ->
      lightState (svc σ) id = turnOn ->
      LightStep turnOn l σ
        (Ok tt (logged σ [EvLog Info (phaseMsg turnOn);
                          EvLog Info (skipMsg turnOn id)]))
  | LightStep_call id err w :
      config.ID l = Some id ->
      lightState (svc σ) id = negb turnOn ->
      switchLight turnOn id (world σ) = (err, w) ->
      LightStep turnOn l σ
        (Ok tt (withSvc (set_lightState id turnOn)
                  (withWorld w
                     (logged σ ([EvLog Info (phaseMsg turnOn);
                                 switchEv turnOn id err]
                                ++ failLog turnOn id err))))).

Lemma setLightState_step turnOn l σ :
  LightStep turnOn l σ (setLightState turnOn l σ).
Proof.
  unfold setLightState, TurnOnLightById, TurnOffLightById.
  destruct turnOn; mred.
  - destruct (config.ID l) as [id|] eqn:Hid; mred;
      [|exact (LightStep_nil true l σ Hid)].
    destruct (lightState (svc σ) id) eqn:Hst; mred.
    + same_state (LightStep_skip true l σ id Hid Hst).
    + destruct (client_TurnOnLightById id (world σ)) as [err w] eqn:Hcall.
      destruct err; mred;
        same_state (LightStep_call true l σ id _ w Hid Hst Hcall).
  - destruct (config.ID l) as [id|] eqn:Hid; mred;
      [|exact (LightStep_nil false l σ Hid)].
    destruct (lightState (svc σ) id) eqn:Hst; mred.
    + destruct (client_TurnOffLightById id (world σ)) as [err w] eqn:Hcall.
      destruct err; mred;
        same_state (LightStep_call false l σ id _ w Hid Hst Hcall).
    + same_state (LightStep_skip false l σ id Hid Hst).
Qed.

(* One light of a refresh: a nil id panics, a failed fetch only logs, a
   fetch without error and without data panics, a fetched state is cached. *)
Inductive RefreshStep l σ : Outcome W unit -> Prop :=
  | RefreshStep_nil_id :
      config.ID l = None ->
      RefreshStep l σ (Panic NilPointerDereference σ)
  | RefreshStep_failed id r e w :
      config.ID l = Some id ->
      client_GetOneLightById id (world σ) = ((r, Some e), w) ->
      RefreshStep l σ
        (Ok tt (withWorld w
                  (logged σ [EvGetOneLightById id (r, Some e);
                             EvLog Warn (MsgRefreshFailed id e)])))
  | RefreshStep_nil_item id w :
      config.ID l = Some id ->
      client_GetOneLightById id (world σ) = ((None, None), w) ->
      RefreshStep l σ
        (Panic NilPointerDereference
           (withWorld w (logged σ [EvGetOneLightById id (None, None)])))
  | RefreshStep_item id item w :
      config.ID l = Some id ->
      client_GetOneLightById id (world σ) = ((Some item, None), w) ->
      RefreshStep l σ
        (Ok tt (withSvc
                  (set_lightState id (hueclient.On (hueclient.OnState item)))
                  (withWorld w
                     (logged σ [EvGetOneLightById id (Some item, None)])))).

Lemma refreshLightState_step l σ :
  RefreshStep l σ (refreshLightState l σ).
Proof.
  unfold refreshLightState, GetOneLightById. mred.
  destruct (config.ID l) as [id|] eqn:Hid; mred;
    [|destruct σ; exact (RefreshStep_nil_id l _ Hid)].
  destruct (client_GetOneLightById id (world σ)) as [[item err] w] eqn:Hcall.
  destruct err as [e|]; mred.
  - same_state (RefreshStep_failed l σ id item e w Hid Hcall).
  - destruct item as [item|]; mred.
    + same_state (RefreshStep_item l σ id item w Hid Hcall).
    + same_state (RefreshStep_nil_item l σ id w Hid Hcall).
Qed.

(* What holds of the state before a loop and is kept by every round holds
   of the state the loop ends in, however it ends. *)
Lemma forRange_final {A} (P : Sys W -> Prop) (body : A -> M W unit) xs :
  (forall x σ, x ∈ xs -> P σ -> P (final (body x σ))) ->
  forall σ, P σ -> P (final (forRange xs body σ)).
Proof.
  induction xs as [|x rest IH]; intros Hbody σ HP; [exact HP|].
  rewrite forRange_cons.
  pose proof (Hbody x σ (list_elem_of_here _ _) HP) as Hx.
  destruct (body x σ) as [[] σ'|p σ']; cbn in Hx; [|exact Hx].
  apply IH; [|exact Hx].
  intros y τ Hy. apply Hbody. by apply list_elem_of_further.
Qed.

Lemma sameControl_refl σ : sameControl σ σ.
Proof. by repeat split. Qed.

Lemma sameControl_trans σ1 σ2 σ3 :
  sameControl σ1 σ2 -> sameControl σ2 σ3 -> sameControl σ1 σ3.
Proof.
  unfold sameControl. intros (?&?&?&?&?) (?&?&?&?&?).
  repeat split; congruence.
Qed.

Lemma setLightState_sameControl turnOn l σ :
  sameControl σ (final (setLightState turnOn l σ)).
Proof. destruct (setLightState_step turnOn l σ); by repeat split. Qed.

Lemma refreshLightState_sameControl l σ :
  sameControl σ (final (refreshLightState l σ)).
Proof. destruct (refreshLightState_step l σ); by repeat split. Qed.

Lemma forRange_sameControl (body : config.Light -> M W unit) lights σ :
  (forall l τ, sameControl τ (final (body l τ))) ->
  sameControl σ (final (forRange lights body σ)).
Proof.
  intros Hbody.
  apply (forRange_final (sameControl σ)); [|apply sameControl_refl].
  intros l τ _ Hτ. eapply sameControl_trans; [exact Hτ|apply Hbody].
Qed.

Lemma setLightsState_sameControl turnOn σ :
  sameControl σ (final (setLightsState turnOn σ)).
Proof.
  unfold setLightsState. mred.
  apply forRange_sameControl, setLightState_sameControl.
Qed.

(** *** Counting calls *)

Lemma countEv_app p (a b : list Event) :
  countEv p (a ++ b) = (countEv p a + countEv p b)%nat.
Proof. unfold countEv. by rewrite List.filter_app, length_app. Qed.

Lemma switchCalls_app turnOn id (a b : list Event) :
  switchCalls turnOn id (a ++ b)
  = (switchCalls turnOn id a + switchCalls turnOn id b)%nat.
Proof. apply countEv_app. Qed.

Lemma switchCalls_failLog b b' id id' err :
  switchCalls b id (failLog b' id' err) = 0%nat.
Proof. by destruct err, b'. Qed.

Lemma switchCalls_switchEv b b' id id' err :
  switchCalls b id [switchEv b' id' err]
  = if bool_decide (b' = b) && bool_decide (id' = id) then 1%nat else 0%nat.
Proof.
  unfold switchCalls, countEv, switchEv.
  destruct b, b'; cbn; by destruct (bool_decide (id' = id)).
Qed.

Lemma lightState_set s id id' on :
  lightState (set_lightState id' on s) id
  = if bool_decide (id' = id) then on else lightState s id.
Proof.
  unfold lightState, set_lightState. cbn.
  case_bool_decide as Hid.
  - subst. by rewrite lookup_insert_eq.
  - by rewrite lookup_insert_ne.
Qed.

Lemma elem_of_ids_cons id id' (ids : list (option string)) :
  bool_decide (Some id ∈ Some id' :: ids)
  = bool_decide (id' = id) || bool_decide (Some id ∈ ids).
Proof.
  rewrite <- bool_decide_or. apply bool_decide_ext.
  rewrite elem_of_cons.
  split; (intros [?|?]; [left; congruence|by right]).
Qed.

Lemma commandPass_spec turnOn lights σ :
  Forall (fun l => config.ID l <> None) lights ->
  exists σ',
    forRange lights (setLightState turnOn) σ = Ok tt σ' /\
    (forall id,
       switchCalls turnOn id (trace σ')
       = (switchCalls turnOn id (trace σ)
          + if commanded turnOn lights σ id then 1 else 0)%nat) /\
    (forall id,
       lightState (svc σ') id
       = if bool_decide (Some id ∈ config.ID <$> lights) then turnOn
         else lightState (svc σ) id).
Proof.
  intros Hall. revert σ.
  induction Hall as [|l rest Hl Hrest IH]; intros σ.
  { exists σ. split; [done|].
    split; intros id; unfold commanded; cbn [fmap list_fmap];
      rewrite (bool_decide_eq_false_2 _ (not_elem_of_nil (Some id)));
      cbn; [lia|done]. }
  rewrite forRange_cons.
  destruct (setLightState_step turnOn l σ)
    as [Hid|id' Hid Hst|id' err w Hid Hst Hcall]; [done| |].
  - destruct (IH (logged σ [EvLog Info (phaseMsg turnOn);
                            EvLog Info (skipMsg turnOn id')]))
      as (σ' & -> & Hcnt & Hst').
    exists σ'. split; [done|]. split; intros id.
    + rewrite Hcnt. cbn [logged trace]. rewrite switchCalls_app.
      replace (switchCalls turnOn id [EvLog Info (phaseMsg turnOn);
                                      EvLog Info (skipMsg turnOn id')])
        with 0%nat by done.
      unfold commanded. cbn [logged svc fmap list_fmap].
      rewrite Hid, elem_of_ids_cons.
      destruct (decide (id' = id)) as [->|Hne].
      * rewrite Hst. rewrite (bool_decide_eq_false_2 (turnOn = negb turnOn))
          by (by destruct turnOn).
        rewrite !andb_false_r. lia.
      * rewrite (bool_decide_eq_false_2 _ Hne). cbn [orb]. lia.
    + rewrite Hst'. cbn [logged svc fmap list_fmap].
      rewrite Hid, elem_of_ids_cons.
      destruct (decide (id' = id)) as [->|Hne].
      * rewrite (bool_decide_eq_true_2 (id = id)) by done. cbn [orb].
        by case_bool_decide.
      * by rewrite (bool_decide_eq_false_2 _ Hne).
  - destruct (IH (withSvc (set_lightState id' turnOn)
                    (withWorld w
                       (logged σ ([EvLog Info (phaseMsg turnOn);
                                   switchEv turnOn id' err]
                                  ++ failLog turnOn id' err)))))
      as (σ' & -> & Hcnt & Hst').
    exists σ'. split; [done|]. split; intros id.
    + rewrite Hcnt. cbn [withSvc withWorld logged trace].
      rewrite !switchCalls_app, switchCalls_failLog.
      change [EvLog Info (phaseMsg turnOn); switchEv turnOn id' err]
        with ([EvLog Info (phaseMsg turnOn)] ++ [switchEv turnOn id' err]).
      rewrite switchCalls_app, switchCalls_switchEv.
      replace (switchCalls turnOn id [EvLog Info (phaseMsg turnOn)])
        with 0%nat by done.
      unfold commanded. cbn [withSvc withWorld logged svc fmap list_fmap].
      rewrite Hid, elem_of_ids_cons, lightState_set.
      rewrite (bool_decide_eq_true_2 (turnOn = turnOn)) by done.
      destruct (decide (id' = id)) as [->|Hne].
      * rewrite (bool_decide_eq_true_2 (id = id)) by done.
        rewrite Hst. rewrite (bool_decide_eq_true_2 (negb turnOn = negb turnOn)) by done.
        rewrite (bool_decide_eq_false_2 (turnOn = negb turnOn))
          by (by destruct turnOn).
        rewrite andb_false_r. cbn. lia.
      * rewrite (bool_decide_eq_false_2 _ Hne). cbn [orb andb]. lia.
    + rewrite Hst'. cbn [withSvc withWorld logged svc fmap list_fmap].
      rewrite Hid, elem_of_ids_cons, lightState_set.
      destruct (decide (id' = id)) as [->|Hne].
      * rewrite (bool_decide_eq_true_2 (id = id)) by done. cbn [orb].
        by case_bool_decide.
      * by rewrite (bool_decide_eq_false_2 _ Hne).
Qed.

(** *** Lights without an id *)

Lemma forRange_setLightState_nil turnOn lights σ :
  Exists (fun l => config.ID l = None) lights ->
  exists σ', forRange lights (setLightState turnOn) σ
             = Panic NilPointerDereference σ'.
Proof.
  intros Hex. revert σ.
  induction lights as [|l rest IH]; intros σ; [by apply Exists_nil in Hex|].
  rewrite forRange_cons.
  destruct (setLightState_step turnOn l σ) as [Hid|id Hid Hst|id err w Hid Hst Hc];
    [by eexists| |].
  - apply Exists_cons in Hex as [Hl|Hrest]; [congruence|by apply IH].
  - apply Exists_cons in Hex as [Hl|Hrest]; [congruence|by apply IH].
Qed.

Lemma forRange_refreshLightState_nil lights σ :
  Exists (fun l => config.ID l = None) lights ->
  exists σ', forRange lights refreshLightState σ
             = Panic NilPointerDereference σ'.
Proof.
  intros Hex. revert σ.
  induction lights as [|l rest IH]; intros σ; [by apply Exists_nil in Hex|].
  rewrite forRange_cons.
  destruct (refreshLightState_step l σ) as [Hid|id r e w Hid Hc|id w Hid Hc|id it w Hid Hc];
    [by eexists| |by eexists|].
  - apply Exists_cons in Hex as [Hl|Hrest]; [congruence|by apply IH].
  - apply Exists_cons in Hex as [Hl|Hrest]; [congruence|by apply IH].
Qed.

(** *** How a refresh pass and a tick run *)

Lemma runAutomation_run σ :
  runAutomation σ =
  ((if refreshDue σ then refreshLightStates else mret tt) ;;
   commandPhase (tickTime σ)) (atCheck σ).
Proof.
  unfold runAutomation, refreshDue, atCheck, checkTime, tickTime, commandPhase,
    time_Since.
  mred. unfold withWorld, logged. cbn [world svc evsvc trace].
  destruct (time_Now (world σ)) as [t1 w1]. mred.
  destruct (time_Now w1) as [t2 w2]. mred.
  reflexivity.
Qed.

Lemma refreshLightStates_run σ :
  refreshLightStates σ =
  match forRange (config.Lights (config (svc σ))) refreshLightState σ with
  | Ok _ σ' =>
      Ok tt (withSvc (set_lastLightStateRefresh (time_Now (world σ')).1)
               (withWorld (time_Now (world σ')).2
                  (logged σ' [EvRefreshStamp (time_Now (world σ')).1])))
  | Panic p σ' => Panic p σ'
  end.
Proof.
  unfold refreshLightStates. mred.
  destruct (forRange _ refreshLightState σ) as [[] σ'|p σ']; [|reflexivity].
  destruct (time_Now (world σ')) as [t w]. reflexivity.
Qed.

Lemma commandPhase_run tickT σ :
  commandPhase tickT σ =
  let now := (time_Now (world σ)).1 in
  let times := sunrise_SunriseSunset
                 (config.Latitude (config.location (config (svc σ))))
                 (config.Longitude (config.location (config (svc σ)))) now in
  setLightsState (isNight tickT times.1 times.2)
    (withWorld (time_Now (world σ)).2
       (logged σ [EvLog Info (MsgSunriseSunset times.1 times.2)])).
Proof.
  unfold commandPhase, CalculateSunriseSunset. mred.
  destruct (time_Now (world σ)) as [t w]. cbn [fst snd].
  unfold withWorld, logged. cbn [world svc evsvc trace].
  by destruct (isNight tickT _ _).
Qed.

Lemma setLightsState_nil turnOn σ :
  Exists (fun l => config.ID l = None) (config.Lights (config (svc σ))) ->
  exists σ', setLightsState turnOn σ = Panic NilPointerDereference σ'.
Proof.
  intros Hex. unfold setLightsState. mred.
  by apply forRange_setLightState_nil.
Qed.

Lemma refreshLightStates_nil σ :
  Exists (fun l => config.ID l = None) (config.Lights (config (svc σ))) ->
  exists σ', refreshLightStates σ = Panic NilPointerDereference σ'.
Proof.
  intros Hex. rewrite refreshLightStates_run.
  destruct (forRange_refreshLightState_nil _ σ Hex) as [σ' ->]. by eexists.
Qed.

Lemma refreshLightStates_sameConfig σ :
  config (svc (final (refreshLightStates σ))) = config (svc σ).
Proof.
  rewrite refreshLightStates_run.
  pose proof (forRange_sameControl refreshLightState
                (config.Lights (config (svc σ))) σ
                refreshLightState_sameControl) as (Hc & _).
  by destruct (forRange _ refreshLightState σ) as [[] σ'|p σ'].
Qed.

Lemma runAutomation_nil σ :
  Exists (fun l => config.ID l = None) (config.Lights (config (svc σ))) ->
  exists σ', runAutomation σ = Panic NilPointerDereference σ'.
Proof.
  intros Hex. rewrite runAutomation_run, bind_run.
  assert (Hat : config (svc (atCheck σ)) = config (svc σ)) by reflexivity.
  destruct (refreshDue σ).
  - destruct (refreshLightStates_nil (atCheck σ)) as [σ' ->]; [|by eexists].
    by rewrite Hat.
  - mred. rewrite commandPhase_run. cbv zeta.
    apply setLightsState_nil. cbn. exact Hex.
Qed.

(** C10. With a light that has a name but no id in the configuration
    (which validate accepts), every command pass, every refresh and hence
    every tick and every start of the ticker loop dereferences the nil id
    and panics. *)
Theorem name_only_light_panics σ l :
  l ∈ config.Lights (config (svc σ)) ->
  config.ID l = None ->
  (forall turnOn,
     exists σ', setLightsState turnOn σ = Panic NilPointerDereference σ') /\
  (exists σ', refreshLightStates σ = Panic NilPointerDereference σ') /\
  (exists σ', runAutomation σ = Panic NilPointerDereference σ') /\
  (forall wakes, panicked (runAutomationTickerLoop wakes σ) = true) /\
  (forall name, config.validate (Some (cfgOf [byName name])) = None).
Proof.
  intros Hin Hid.
  assert (Hex : Exists (fun l => config.ID l = None)
                  (config.Lights (config (svc σ)))).
  { apply Exists_exists. by exists l. }
  split; [|split; [|split; [|split]]].
  - intros turnOn. by apply setLightsState_nil.
  - by apply refreshLightStates_nil.
  - by apply runAutomation_nil.
  - intros wakes. unfold runAutomationTickerLoop, deferLoop, defer. mred.
    destruct (refreshLightStates_nil (logged σ [EvLog Info MsgRunningLoop]))
      as [σ' Hp]; [exact Hex|].
    unfold logged in Hp. rewrite Hp. by destruct (Stop σ').
  - intros name. reflexivity.
Qed.

(** *** What a pass adds to the trace *)

Lemma extends_refl Q σ : extends Q σ σ.
Proof. exists []. by rewrite app_nil_r. Qed.

Lemma extends_trans Q σ1 σ2 σ3 :
  extends Q σ1 σ2 -> extends Q σ2 σ3 -> extends Q σ1 σ3.
Proof.
  intros (d1 & E1 & F1) (d2 & E2 & F2). exists (d1 ++ d2).
  split; [by rewrite E2, E1, app_assoc|by apply Forall_app].
Qed.

Lemma extends_weaken (Q Q' : Event -> bool) σ σ' :
  (forall e, Q e = true -> Q' e = true) -> extends Q σ σ' -> extends Q' σ σ'.
Proof.
  intros HQ (d & E & F). exists d. split; [done|].
  eapply Forall_impl; [exact F|exact HQ].
Qed.

Lemma extends_countEv Q p σ σ' :
  extends Q σ σ' ->
  (forall e, Q e = true -> p e = false) ->
  countEv p (trace σ') = countEv p (trace σ).
Proof.
  intros (d & -> & F) HQ. rewrite countEv_app.
  assert (countEv p d = 0%nat) as ->; [|lia].
  unfold countEv. induction F as [|e d He _ IH]; [done|].
  cbn. by rewrite (HQ e He).
Qed.

Lemma forRange_extends {A} Q (body : A -> M W unit) xs σ :
  (forall x τ, extends Q τ (final (body x τ))) ->
  extends Q σ (final (forRange xs body σ)).
Proof.
  intros Hbody.
  apply (forRange_final (extends Q σ)); [|apply extends_refl].
  intros x τ _ Hτ. eapply extends_trans; [exact Hτ|apply Hbody].
Qed.

Lemma setLightState_extends turnOn l σ :
  extends (isPassEv turnOn) σ (final (setLightState turnOn l σ)).
Proof.
  destruct (setLightState_step turnOn l σ) as [Hid|id Hid Hst|id err w Hid Hst Hc];
    eexists; (split; [reflexivity|]).
  - by destruct turnOn; repeat constructor.
  - by destruct turnOn; repeat constructor.
  - apply Forall_app.
    split; [|by destruct err, turnOn; repeat constructor].
    by destruct turnOn; repeat constructor.
Qed.

Lemma setLightsState_extends turnOn σ :
  extends (isPassEv turnOn) σ (final (setLightsState turnOn σ)).
Proof.
  unfold setLightsState. mred.
  apply forRange_extends, setLightState_extends.
Qed.

Lemma refreshLightState_extends l σ :
  extends isFetchEv σ (final (refreshLightState l σ)).
Proof.
  destruct (refreshLightState_step l σ); [apply extends_refl|..];
    eexists; (split; [reflexivity|]); by repeat constructor.
Qed.


(* A pass commanding one value never sends the other command. *)
Lemma setLightsState_never_opposite turnOn σ id :
  switchCalls (negb turnOn) id (trace (final (setLightsState turnOn σ)))
  = switchCalls (negb turnOn) id (trace σ).
Proof.
  apply (extends_countEv (isPassEv turnOn)); [apply setLightsState_extends|].
  intros e He. destruct e; cbn in *; try done; destruct turnOn; done.
Qed.

(** *** Skipping lights that are already as commanded *)

Lemma switchCalls_log turnOn id (tr : list Event) lvl m :
  switchCalls turnOn id (tr ++ [EvLog lvl m]) = switchCalls turnOn id tr.
Proof. rewrite switchCalls_app. cbn. lia. Qed.


Lemma setLightsState_spec turnOn σ :
  allByID (config (svc σ)) ->
  exists σ',
    setLightsState turnOn σ = Ok tt σ' /\
    (forall id,
       switchCalls turnOn id (trace σ')
       = (switchCalls turnOn id (trace σ)
          + if commanded turnOn (config.Lights (config (svc σ))) σ id
            then 1 else 0)%nat) /\
    (forall id,
       lightState (svc σ') id
       = if bool_decide (Some id ∈ config.ID <$> config.Lights (config (svc σ)))
         then turnOn else lightState (svc σ) id).
Proof.
  intros Hall. unfold setLightsState. mred. by apply commandPass_spec.
Qed.

Lemma runAutomation_no_refresh σ :
  refreshDue σ = false ->
  runAutomation σ = commandPhase (tickTime σ) (atCheck σ).
Proof. intros Hd. by rewrite runAutomation_run, Hd. Qed.


(** *** Start and Stop *)

Lemma Start_run σ :
  Start σ =
  match ticker (svc σ) with
  | Some _ => Ok None (logged σ [EvLog Warn MsgAlreadyRunning])
  | None =>
      Ok None
        (withSvc (set_ticker (Some (time.NewTicker (1 * time.Second))))
           (logged σ [EvLog Info MsgStarting; EvGoTickerLoop]))
  end.
Proof.
  unfold Start. mred. destruct (ticker (svc σ)); mred; [done|].
  unfold withSvc, logged. cbn [world svc evsvc trace].
  by rewrite <- app_assoc.
Qed.

Lemma Stop_run σ :
  Stop σ =
  match ticker (svc σ), tickerStop (svc σ) with
  | None, _ => Ok tt (logged σ [EvLog Warn MsgNotRunning])
  | Some _, ChanOpen =>
      Ok tt
        (withSvc (fun s => set_tickerStop ChanClosed (set_ticker None s))
           (logged σ [EvLog Info MsgStopping; EvTickerStop]))
  | Some _, ChanClosed =>
      Panic CloseOfClosedChannel
        (withSvc (set_ticker None)
           (logged σ [EvLog Info MsgStopping; EvTickerStop]))
  end.
Proof.
  unfold Stop, close_tickerStop. mred.
  destruct (ticker (svc σ)) eqn:Ht; mred; [|done].
  rewrite Ht. mred. unfold withSvc, logged. cbn [world svc evsvc trace].
  rewrite <- app_assoc. cbn [set_ticker tickerStop].
  by destruct (tickerStop (svc σ)).
Qed.


(** *** Stopping and switching the lights off *)

Lemma setLightState_caches_command turnOn l σ id :
  config.ID l = Some id ->
  lightState (svc (final (setLightState turnOn l σ))) id = turnOn.
Proof.
  intros Hid.
  destruct (setLightState_step turnOn l σ) as [Hn|id' Hid' Hst|id' err w Hid' Hst Hc];
    [congruence| |]; assert (id' = id) as -> by congruence.
  - done.
  - cbn. rewrite lightState_set. by rewrite bool_decide_eq_true_2.
Qed.

(** C2, as the code has it. StopAndTurnOffLights first calls Stop and then
    makes one pass over the configured lights that consults the cache: a
    light cached as on is sent a turn-off command, a light cached as off
    is sent none, and no light is sent a turn-on command.  A failing
    command does not end the pass. *)
Theorem stop_and_turn_off_consults_cache σ :
  allByID (config (svc σ)) ->
  ticker (svc σ) = None \/ tickerStop (svc σ) = ChanOpen ->
  exists σs σ',
    Stop σ = Ok tt σs /\
    setLightsState false σs = Ok tt σ' /\
    StopAndTurnOffLights σ = Ok None σ' /\
    ticker (svc σ') = None /\
    extends (isPassEv false) σs σ' /\
    (forall id,
       Some id ∈ config.ID <$> config.Lights (config (svc σ)) ->
       lightState (svc σ) id = true ->
       (turnOffCalls id (trace σ) < turnOffCalls id (trace σ'))%nat) /\
    (forall id,
       lightState (svc σ) id = false ->
       turnOffCalls id (trace σ') = turnOffCalls id (trace σ)) /\
    (forall id, turnOnCalls id (trace σ') = turnOnCalls id (trace σ)).
Proof.
  intros Hall Hlife.
  assert (exists σs, Stop σ = Ok tt σs /\
            config (svc σs) = config (svc σ) /\
            lightStates (svc σs) = lightStates (svc σ) /\
            ticker (svc σs) = None /\
            (forall b id, switchCalls b id (trace σs) = switchCalls b id (trace σ)))
    as (σs & Hstop & Hcfg & Hls & Htk & Hcalls).
  { rewrite Stop_run.
    destruct (ticker (svc σ)) eqn:Ht.
    - destruct Hlife as [?|Hopen]; [done|]. rewrite Hopen.
      eexists. split; [done|]. repeat split; try done.
      intros b id. cbn [withSvc logged trace]. rewrite switchCalls_app. cbn. lia.
    - eexists. split; [done|]. repeat split; try done.
      intros b id. cbn [logged trace]. rewrite switchCalls_app. cbn. lia. }
  destruct (setLightsState_spec false σs) as (σ' & Hpass & Hcnt & Hst);
    [by rewrite Hcfg|].
  exists σs, σ'.
  pose proof (setLightsState_extends false σs) as Hext.
  pose proof (setLightsState_sameControl false σs) as (_ & Htk' & _).
  pose proof (setLightsState_never_opposite false σs) as Hopp.
  rewrite Hpass in Hext, Htk', Hopp. cbn [final] in Hext, Htk', Hopp.
  assert (Hsame : forall id, lightState (svc σs) id = lightState (svc σ) id).
  { intros id. unfold lightState. by rewrite Hls. }
  split; [done|]. split; [done|]. split.
  { unfold StopAndTurnOffLights. mred. rewrite Hstop. by rewrite Hpass. }
  split; [congruence|]. split; [done|]. split; [|split].
  - intros id Hin Hon. unfold turnOffCalls. rewrite Hcnt, Hcalls.
    unfold commanded. rewrite Hcfg, Hsame, Hon.
    rewrite (bool_decide_eq_true_2 _ Hin).
    rewrite (bool_decide_eq_true_2 (true = negb false)) by done. cbn [andb]. lia.
  - intros id Hoff. unfold turnOffCalls. rewrite Hcnt, Hcalls.
    unfold commanded. rewrite Hsame, Hoff.
    rewrite (bool_decide_eq_false_2 (false = negb false)) by done.
    rewrite andb_false_r. lia.
  - intros id. unfold turnOnCalls. rewrite <- Hcalls. apply Hopp.
Qed.

(** *** Refreshing the cache *)

Lemma neverEmpty_fetch id (w w' : W) :
  neverEmpty W -> client_GetOneLightById id w <> ((None, None), w').
Proof. intros Hne Hc. apply (Hne id w). by rewrite Hc. Qed.

Lemma lookup_set_lightState s id id' on :
  id' <> id ->
  lightStates (set_lightState id' on s) !! id = lightStates s !! id.
Proof. intros Hne. cbn. by rewrite lookup_insert_ne. Qed.

Lemma refreshPass_spec lights σ :
  Forall (fun l => config.ID l <> None) lights ->
  neverEmpty W ->
  exists σ' d,
    forRange lights refreshLightState σ = Ok tt σ' /\
    trace σ' = trace σ ++ d /\
    fetchedIDs d = omap config.ID lights /\
    (forall id,
       (forall r, EvGetOneLightById id r ∈ d -> r.2 <> None) ->
       lightStates (svc σ') !! id = lightStates (svc σ) !! id).
Proof.
  intros Hall Hne. revert σ.
  induction Hall as [|l rest Hl Hrest IH]; intros σ.
  { exists σ, []. by rewrite app_nil_r. }
  rewrite forRange_cons.
  destruct (refreshLightState_step l σ)
    as [Hid|id' r e w Hid Hc|id' w Hid Hc|id' item w Hid Hc];
    [done| |by apply neverEmpty_fetch in Hc|].
  - destruct (IH (withWorld w
                    (logged σ [EvGetOneLightById id' (r, Some e);
                               EvLog Warn (MsgRefreshFailed id' e)])))
      as (σ' & d & -> & Htr & Hids & Hkeep).
    eexists σ', (_ :: _ :: d). split; [done|].
    split; [by rewrite Htr; cbn; rewrite <- app_assoc|].
    split.
    { change (fetchedIDs (_ :: _ :: d)) with (id' :: fetchedIDs d).
      cbn [omap list_omap]. by rewrite Hid, Hids. }
    intros id Hfail. rewrite Hkeep; [done|].
    intros r' Hin. apply Hfail. by do 2 apply list_elem_of_further.
  - destruct (IH (withSvc
                    (set_lightState id' (hueclient.On (hueclient.OnState item)))
                    (withWorld w
                       (logged σ [EvGetOneLightById id' (Some item, None)]))))
      as (σ' & d & -> & Htr & Hids & Hkeep).
    eexists σ', (_ :: d). split; [done|].
    split; [by rewrite Htr; cbn; rewrite <- app_assoc|].
    split.
    { change (fetchedIDs (_ :: d)) with (id' :: fetchedIDs d).
      cbn [omap list_omap]. by rewrite Hid, Hids. }
    intros id Hfail. rewrite Hkeep.
    + cbn [withSvc withWorld logged svc].
      apply lookup_set_lightState. intros ->.
      by apply (Hfail (Some item, None)); [apply list_elem_of_here|].
    + intros r' Hin. apply Hfail. by apply list_elem_of_further.
Qed.

Lemma refreshLightStates_total σ :
  allByID (config (svc σ)) ->
  neverEmpty W ->
  exists σp σ' d,
    forRange (config.Lights (config (svc σ))) refreshLightState σ = Ok tt σp /\
    refreshLightStates σ = Ok tt σ' /\
    trace σp = trace σ ++ d /\
    fetchedIDs d = lightIDs (config (svc σ)) /\
    lightStates (svc σ') = lightStates (svc σp) /\
    lastLightStateRefresh (svc σ') = (time_Now (world σp)).1 /\
    trace σ' = trace σp ++ [EvRefreshStamp (time_Now (world σp)).1].
Proof.
  intros Hall Hne.
  destruct (refreshPass_spec _ σ Hall Hne) as (σp & d & Hloop & Htr & Hids & _).
  rewrite refreshLightStates_run, Hloop.
  by eexists σp, _, d.
Qed.

(** C7. With every light addressed by id and a bridge that never answers
    a fetch with neither data nor error, a refresh fetches every
    configured light once, in configuration order, whatever fails on the
    way; a light all of whose fetches failed keeps its cache entry; and
    when the pass is through, the clock is read and the reading becomes
    the time of the last refresh, even if every fetch failed. *)
Theorem refresh_survives_failed_fetches σ :
  allByID (config (svc σ)) ->
  neverEmpty W ->
  exists σp σ' d,
    forRange (config.Lights (config (svc σ))) refreshLightState σ = Ok tt σp /\
    refreshLightStates σ = Ok tt σ' /\
    trace σp = trace σ ++ d /\
    fetchedIDs d = lightIDs (config (svc σ)) /\
    (forall id,
       (forall r, EvGetOneLightById id r ∈ d -> r.2 <> None) ->
       lightStates (svc σ') !! id = lightStates (svc σ) !! id) /\
    ((forall id r, EvGetOneLightById id r ∈ d -> r.2 <> None) ->
       lightStates (svc σ') = lightStates (svc σ)) /\
    lastLightStateRefresh (svc σ') = (time_Now (world σp)).1 /\
    trace σ' = trace σp ++ [EvRefreshStamp (time_Now (world σp)).1].
Proof.
  intros Hall Hne.
  destruct (refreshPass_spec _ σ Hall Hne) as (σp & d & Hloop & Htr & Hids & Hkeep).
  rewrite refreshLightStates_run, Hloop.
  eexists σp, _, d. split; [done|]. split; [done|].
  split; [done|]. split; [done|].
  cbn [withSvc withWorld logged svc trace set_lastLightStateRefresh
       lightStates lastLightStateRefresh].
  split; [done|]. split; [|done].
  intros Hfail. apply map_eq. intros id. apply Hkeep. intros r. apply Hfail.
Qed.

(** *** When a tick refreshes *)

Lemma time_Sub_over (t u : Time) :
  5 * time.Minute < time.Sub t u <-> 5 * time.Minute < t - u.
Proof.
  unfold time.Sub, time.minDuration, time.maxDuration, time.Minute,
    time.Second, time.Nanosecond.
  change (2 ^ 63) with 9223372036854775808.
  cbv zeta.
  destruct (_ <? _) eqn:E1; [apply Z.ltb_lt in E1; lia|].
  apply Z.ltb_ge in E1.
  destruct (_ <? _) eqn:E2; [apply Z.ltb_lt in E2|apply Z.ltb_ge in E2]; lia.
Qed.

Lemma refreshDue_spec σ :
  refreshDue σ = true
  <-> 5 * time.Minute < checkTime σ - lastLightStateRefresh (svc σ).
Proof. unfold refreshDue. by rewrite Z.ltb_lt, time_Sub_over. Qed.

Lemma commandPhase_spec tickT σ :
  allByID (config (svc σ)) ->
  exists σ',
    commandPhase tickT σ = Ok tt σ' /\
    sameControl σ σ' /\
    extends isCommandEv σ σ'.
Proof.
  intros Hall. rewrite commandPhase_run. cbv zeta.
  set (τ := withWorld _ _). set (b := isNight _ _ _).
  destruct (setLightsState_spec b τ Hall) as (σ' & Hok & _).
  pose proof (setLightsState_sameControl b τ) as Hsame.
  pose proof (setLightsState_extends b τ) as Hext.
  rewrite Hok in Hsame, Hext. cbn [final] in Hsame, Hext.
  exists σ'. split; [done|]. split; [exact Hsame|].
  eapply (extends_trans _ σ τ).
  - eexists. split; [reflexivity|]. by repeat constructor.
  - eapply extends_weaken; [|exact Hext].
    intros e He. unfold isCommandEv.
    destruct e as [[] []| | | | | | | | | | |], b; cbn in *; try done.
Qed.

Lemma refresh_mono (instant : W -> Time) lights σ :
  monotoneClock instant ->
  instant (world σ)
  <= instant (world (final (forRange lights refreshLightState σ))).
Proof.
  intros (_ & Hget & _).
  apply (forRange_final (fun τ => instant (world σ) <= instant (world τ)));
    [|lia].
  intros l τ _ Hτ.
  destruct (refreshLightState_step l τ)
    as [Hid|id r e w Hid Hc|id w Hid Hc|id item w Hid Hc];
    cbn [final withSvc withWorld logged world]; [done|..];
    pose proof (Hget id (world τ)) as Hm; rewrite Hc in Hm; cbn in Hm; lia.
Qed.

Lemma countEv_isGet (d : list Event) :
  countEv isGet d = length (fetchedIDs d).
Proof.
  unfold countEv, fetchedIDs.
  induction d as [|e d IH]; [done|]. destruct e; cbn; by rewrite ?IH.
Qed.

Lemma refreshPass_extends lights σ :
  extends isFetchEv σ (final (forRange lights refreshLightState σ)).
Proof. apply forRange_extends, refreshLightState_extends. Qed.

(** C6. A tick refreshes the cache exactly when the clock, read for the
    comparison, is more than five minutes past the last refresh: then it
    makes one refresh pass, fetching every configured light, and otherwise
    none, leaving the time of the last refresh alone.  With a clock that
    does not run backwards, the refresh of a tick is stamped no earlier
    than the tick began, so a tick whose comparison comes at most five
    minutes after a refreshing tick began does not refresh again. *)
Theorem tick_refreshes_after_five_minutes σ :
  allByID (config (svc σ)) ->
  neverEmpty W ->
  exists σ',
    runAutomation σ = Ok tt σ' /\
    (refreshDue σ = true
     <-> 5 * time.Minute < checkTime σ - lastLightStateRefresh (svc σ)) /\
    refreshPasses (trace σ')
    = (refreshPasses (trace σ) + if refreshDue σ then 1 else 0)%nat /\
    countEv isGet (trace σ')
    = (countEv isGet (trace σ)
       + if refreshDue σ then length (lightIDs (config (svc σ))) else 0)%nat /\
    (refreshDue σ = false ->
       lastLightStateRefresh (svc σ') = lastLightStateRefresh (svc σ)) /\
    (forall instant,
       monotoneClock instant -> refreshDue σ = true ->
       tickTime σ <= lastLightStateRefresh (svc σ') /\
       forall τ : Sys W,
         svc τ = svc σ' ->
         checkTime τ - tickTime σ <= 5 * time.Minute ->
         refreshDue τ = false).
Proof.
  intros Hall Hne. rewrite runAutomation_run, bind_run.
  assert (Hlog : forall p, p (EvLog Info (MsgTick (tickTime σ))) = false ->
            countEv p (trace (atCheck σ)) = countEv p (trace σ)).
  { intros p Hp. unfold atCheck. cbn [withWorld logged trace].
    rewrite countEv_app. unfold countEv at 2. cbn. rewrite Hp. cbn. lia. }
  pose proof (refreshDue_spec σ) as Hspec.
  destruct (refreshDue σ) eqn:Hdue.
  - destruct (refreshLightStates_total (atCheck σ) Hall Hne)
      as (σp & σr & d & Hloop & Href & Htr & Hids & _ & Hlast & Htr').
    rewrite Href.
    pose proof (refreshLightStates_sameConfig (atCheck σ)) as Hcfg.
    rewrite Href in Hcfg. cbn [final] in Hcfg.
    destruct (commandPhase_spec (tickTime σ) σr) as (σ' & Hok & Hsame & Hext);
      [by rewrite Hcfg|].
    exists σ'. split; [done|]. split; [exact Hspec|].
    destruct Hsame as (_ & _ & _ & Hlast' & _).
    pose proof (refreshPass_extends
                  (config.Lights (config (svc (atCheck σ)))) (atCheck σ)) as Hfetch.
    rewrite Hloop in Hfetch. cbn [final] in Hfetch.
    split; [|split; [|split; [done|]]].
    + unfold refreshPasses.
      rewrite (extends_countEv _ isRefreshStamp σr σ' Hext)
        by (by intros []).
      rewrite Htr', countEv_app.
      rewrite (extends_countEv _ isRefreshStamp _ σp Hfetch)
        by (by intros [[] []| | | | | | | | | | |]).
      rewrite (Hlog isRefreshStamp) by done. done.
    + rewrite (extends_countEv _ isGet σr σ' Hext) by (by intros []).
      rewrite Htr', Htr, !countEv_app, (Hlog isGet) by done.
      rewrite (countEv_isGet d), Hids. cbn. lia.
    + intros instant Hmono _.
      assert (Hstamp : tickTime σ <= lastLightStateRefresh (svc σ')).
      { rewrite Hlast', Hlast.
        pose proof (refresh_mono instant
                      (config.Lights (config (svc (atCheck σ)))) (atCheck σ)
                      Hmono) as Hm.
        rewrite Hloop in Hm. cbn [final] in Hm.
        destruct Hmono as (Hnow & _).
        pose proof (Hnow (world σ)) as [_ H1].
        pose proof (Hnow (time_Now (world σ)).2) as [H2 H3].
        pose proof (Hnow (world σp)) as [H4 _].
        unfold tickTime. unfold atCheck in Hm. cbn [withWorld world] in Hm.
        lia. }
      split; [exact Hstamp|].
      intros τ Hτ Hclose. apply not_true_is_false.
      rewrite refreshDue_spec, Hτ. lia.
  - mred.
    destruct (commandPhase_spec (tickTime σ) (atCheck σ) Hall)
      as (σ' & Hok & Hsame & Hext).
    exists σ'. split; [done|]. split; [exact Hspec|].
    destruct Hsame as (_ & _ & _ & Hlast' & _).
    split; [|split; [|split; [done|done]]].
    + unfold refreshPasses.
      rewrite (extends_countEv _ isRefreshStamp _ σ' Hext) by (by intros []).
      rewrite Hlog by done. lia.
    + rewrite (extends_countEv _ isGet _ σ' Hext) by (by intros []).
      rewrite Hlog by done. lia.
Qed.

(** *** The ticker loop *)

Lemma sameWiring_refl σ : sameWiring σ σ.
Proof. by repeat split. Qed.

Lemma sameWiring_trans σ1 σ2 σ3 :
  sameWiring σ1 σ2 -> sameWiring σ2 σ3 -> sameWiring σ1 σ3.
Proof.
  unfold sameWiring. intros (?&?&?&?) (?&?&?&?). repeat split; congruence.
Qed.

Lemma sameControl_sameWiring σ σ' : sameControl σ σ' -> sameWiring σ σ'.
Proof. intros (?&?&?&?&?). by repeat split. Qed.

Lemma refreshLightStates_sameWiring σ :
  sameWiring σ (final (refreshLightStates σ)).
Proof.
  rewrite refreshLightStates_run.
  pose proof (forRange_sameControl refreshLightState
                (config.Lights (config (svc σ))) σ
                refreshLightState_sameControl) as Hs.
  apply sameControl_sameWiring in Hs.
  by destruct (forRange _ refreshLightState σ) as [[] σ'|p σ'].
Qed.

Lemma refreshLightStates_extends σ :
  extends (fun e => isFetchEv e || isRefreshStamp e)
    σ (final (refreshLightStates σ)).
Proof.
  rewrite refreshLightStates_run.
  pose proof (refreshPass_extends (config.Lights (config (svc σ))) σ) as Hf.
  eapply (extends_weaken _ (fun e => isFetchEv e || isRefreshStamp e)) in Hf;
    [|by intros e ->].
  destruct (forRange _ refreshLightState σ) as [[] σ'|p σ']; [|exact Hf].
  eapply extends_trans; [exact Hf|].
  eexists. split; [reflexivity|]. repeat constructor.
Qed.

Lemma runAutomation_sameWiring σ :
  sameWiring σ (final (runAutomation σ)).
Proof.
  rewrite runAutomation_run, bind_run.
  assert (Hat : sameWiring σ (atCheck σ)) by (by repeat split).
  assert (Hcmd : forall τ, sameWiring τ (final (commandPhase (tickTime σ) τ))).
  { intros τ. rewrite commandPhase_run. cbv zeta.
    set (τ' := withWorld _ _).
    apply (sameWiring_trans _ τ'); [by repeat split|].
    apply sameControl_sameWiring, setLightsState_sameControl. }
  destruct (refreshDue σ).
  - pose proof (refreshLightStates_sameWiring (atCheck σ)) as Hr.
    destruct (refreshLightStates (atCheck σ)) as [[] σr|p σr];
      cbn [final] in Hr.
    + eapply sameWiring_trans; [exact Hat|].
      eapply sameWiring_trans; [exact Hr|apply Hcmd].
    + eapply sameWiring_trans; [exact Hat|exact Hr].
  - mred. eapply sameWiring_trans; [exact Hat|apply Hcmd].
Qed.

Lemma tickerSelectLoop_run wakes σ :
  tickerSelectLoop wakes σ =
  match ticker (svc σ) with
  | None => Panic NilPointerDereference σ
  | Some _ =>
      match wakes with
      | [] =>
          match tickerStop (svc σ) with
          | ChanClosed => Ok Returned (logged σ [EvLog Info MsgStoppingPeriodic])
          | ChanOpen => Ok Parked σ
          end
      | WakeTick :: rest =>
          match runAutomation σ with
          | Ok _ σ' => tickerSelectLoop rest σ'
          | Panic p σ' => Panic p σ'
          end
      | WakeStop :: rest =>
          match tickerStop (svc σ) with
          | ChanClosed => Ok Returned (logged σ [EvLog Info MsgStoppingPeriodic])
          | ChanOpen => tickerSelectLoop rest σ
          end
      end
  end.
Proof.
  destruct wakes as [|[] rest]; cbn [tickerSelectLoop]; mred;
    destruct σ as [w s e tr]; cbn [svc];
    destruct (ticker s); try done; by destruct (tickerStop s).
Qed.

Lemma tickerSelectLoop_sameWiring wakes σ :
  sameWiring σ (final (tickerSelectLoop wakes σ)).
Proof.
  revert σ. induction wakes as [|w rest IH]; intros σ;
    rewrite tickerSelectLoop_run;
    destruct (ticker (svc σ)); try apply sameWiring_refl.
  { destruct (tickerStop (svc σ)); [apply sameWiring_refl|by repeat split]. }
  destruct w.
  - pose proof (runAutomation_sameWiring σ) as Hr.
    destruct (runAutomation σ) as [[] σ'|p σ']; cbn [final] in Hr; [|done].
    eapply sameWiring_trans; [exact Hr|apply IH].
  - destruct (tickerStop (svc σ)); [apply IH|by repeat split].
Qed.

(* With the stop channel closed, the loop cannot stay parked, whatever its
   selects take. *)
Lemma tickerSelectLoop_closed wakes σ σ' :
  tickerStop (svc σ) = ChanClosed ->
  tickerSelectLoop wakes σ <> Ok Parked σ'.
Proof.
  intros Hclosed. revert σ Hclosed.
  induction wakes as [|w rest IH]; intros σ Hclosed;
    rewrite tickerSelectLoop_run; (destruct (ticker (svc σ)); [|done]).
  { by rewrite Hclosed. }
  destruct w.
  - pose proof (runAutomation_sameWiring σ) as (_ & _ & Hts & _).
    destruct (runAutomation σ) as [[] σ1|p σ1]; cbn [final] in Hts; [|done].
    apply IH. congruence.
  - by rewrite Hclosed.
Qed.

Lemma deferLoop_run (d : M W unit) (body : M W LoopStatus) σ :
  deferLoop d body σ =
  match body σ with
  | Ok Parked σ' => Ok Parked σ'
  | Ok Returned σ' =>
      match d σ' with
      | Ok _ σ'' => Ok Returned σ''
      | Panic p σ'' => Panic p σ''
      end
  | Panic p σ' =>
      match d σ' with
      | Ok _ σ'' => Panic p σ''
      | Panic p' σ'' => Panic p' σ''
      end
  end.
Proof.
  unfold deferLoop, defer. by destruct (body σ) as [[] σ'|p σ'].
Qed.

Lemma Stop_closes σ σ1 :
  ticker (svc σ) <> None ->
  Stop σ = Ok tt σ1 ->
  ticker (svc σ1) = None /\ tickerStop (svc σ1) = ChanClosed.
Proof.
  intros Ht Hstop. rewrite Stop_run in Hstop.
  destruct (ticker (svc σ)); [|done].
  destruct (tickerStop (svc σ)); [|done].
  by injection Hstop as <-.
Qed.

Lemma ticksRun_app (a b : list Event) :
  ticksRun (a ++ b) = (ticksRun a + ticksRun b)%nat.
Proof. apply countEv_app. Qed.

(* The loop body of the goroutine, from the refresh on. *)
Lemma loopBody_closed wakes σ σ' :
  tickerStop (svc σ) = ChanClosed ->
  (refreshLightStates ;; tickerSelectLoop wakes) σ <> Ok Parked σ'.
Proof.
  intros Hclosed. rewrite bind_run.
  pose proof (refreshLightStates_sameWiring σ) as (_ & _ & Hts & _).
  destruct (refreshLightStates σ) as [[] σr|p σr]; cbn [final] in Hts; [|done].
  apply tickerSelectLoop_closed. congruence.
Qed.

Lemma loopBody_sameWiring wakes σ :
  sameWiring σ (final ((refreshLightStates ;; tickerSelectLoop wakes) σ)).
Proof.
  rewrite bind_run.
  pose proof (refreshLightStates_sameWiring σ) as Hr.
  destruct (refreshLightStates σ) as [[] σr|p σr]; cbn [final] in Hr; [|done].
  eapply sameWiring_trans; [exact Hr|apply tickerSelectLoop_sameWiring].
Qed.

Lemma commandPhase_extends tickT σ :
  extends isCommandEv σ (final (commandPhase tickT σ)).
Proof.
  rewrite commandPhase_run. cbv zeta.
  set (τ := withWorld _ _). set (b := isNight _ _ _).
  eapply (extends_trans _ σ τ).
  - eexists. split; [reflexivity|]. by repeat constructor.
  - eapply extends_weaken; [|apply setLightsState_extends].
    intros e He. unfold isCommandEv.
    destruct e as [[] []| | | | | | | | | | |], b; cbn in *; try done.
Qed.

Lemma runAutomation_extends σ :
  extends isTickEv (logged σ [EvLog Info (MsgTick (tickTime σ))])
    (final (runAutomation σ)).
Proof.
  rewrite runAutomation_run, bind_run.
  assert (Hat : extends isTickEv (logged σ [EvLog Info (MsgTick (tickTime σ))])
                  (atCheck σ)).
  { exists []. split; [by rewrite app_nil_r|constructor]. }
  assert (Hcmd : forall τ, extends isTickEv τ (final (commandPhase (tickTime σ) τ))).
  { intros τ. eapply extends_weaken; [|apply commandPhase_extends].
    intros e He. unfold isTickEv. rewrite He. by rewrite !orb_true_r. }
  destruct (refreshDue σ).
  - pose proof (refreshLightStates_extends (atCheck σ)) as Hr.
    eapply (extends_weaken _ isTickEv) in Hr;
      [|intros e He; unfold isTickEv; by rewrite He].
    destruct (refreshLightStates (atCheck σ)) as [[] σr|p σr];
      cbn [final] in Hr.
    + eapply extends_trans; [exact Hat|].
      eapply extends_trans; [exact Hr|apply Hcmd].
    + eapply extends_trans; [exact Hat|exact Hr].
  - mred. eapply extends_trans; [exact Hat|apply Hcmd].
Qed.

Lemma isTickEv_not_tick e : isTickEv e = true -> isTickLog e = false.
Proof. by destruct e as [[] []| | | | | | | | | | |]. Qed.

Lemma isTickEv_not_stop e : isTickEv e = true -> isStopEntry e = false.
Proof. by destruct e as [[] []| | | | | | | | | | |]. Qed.

Lemma extends_countEv_le Q p σ σ' :
  extends Q σ σ' -> (countEv p (trace σ) <= countEv p (trace σ'))%nat.
Proof. intros (d & -> & _). rewrite countEv_app. lia. Qed.

Lemma runAutomation_counts σ :
  ticksRun (trace (final (runAutomation σ))) = S (ticksRun (trace σ)) /\
  stopCalls (trace (final (runAutomation σ))) = stopCalls (trace σ) /\
  (refreshPasses (trace σ) <= refreshPasses (trace (final (runAutomation σ))))%nat.
Proof.
  pose proof (runAutomation_extends σ) as Hext.
  split; [|split].
  3:{ apply (extends_countEv_le _ isRefreshStamp) in Hext.
      cbn [logged trace] in Hext. rewrite countEv_app in Hext.
      unfold refreshPasses. cbn in Hext. lia. }
  - unfold ticksRun.
    rewrite (extends_countEv _ isTickLog _ _ Hext isTickEv_not_tick).
    cbn [logged trace]. rewrite countEv_app. cbn. lia.
  - unfold stopCalls.
    rewrite (extends_countEv _ isStopEntry _ _ Hext isTickEv_not_stop).
    cbn [logged trace]. rewrite countEv_app. cbn. lia.
Qed.

Lemma Stop_ticks σ :
  ticksRun (trace (final (Stop σ))) = ticksRun (trace σ).
Proof.
  rewrite Stop_run.
  destruct (ticker (svc σ)); [destruct (tickerStop (svc σ))|];
    cbn [final withSvc logged trace]; rewrite ticksRun_app; cbn; lia.
Qed.

(* With the stop channel closed, the loop runs no more ticks than its
   selects take before they first take the stop case. *)
Lemma tickerSelectLoop_ticks wakes σ :
  tickerStop (svc σ) = ChanClosed ->
  (ticksRun (trace σ) <= ticksRun (trace (final (tickerSelectLoop wakes σ)))
   <= ticksRun (trace σ) + ticksTaken wakes)%nat.
Proof.
  revert σ. induction wakes as [|w rest IH]; intros σ Hclosed;
    rewrite tickerSelectLoop_run;
    (destruct (ticker (svc σ)); [|cbn [final]; lia]).
  { rewrite Hclosed. cbn [final logged trace]. rewrite ticksRun_app. cbn. lia. }
  destruct w.
  - pose proof (runAutomation_sameWiring σ) as (_ & _ & Hts & _).
    pose proof (runAutomation_counts σ) as (Hticks & _).
    destruct (runAutomation σ) as [[] σ1|p σ1]; cbn [final] in *.
    + specialize (IH σ1). rewrite Hts in IH. specialize (IH Hclosed).
      cbn [ticksTaken]. lia.
    + cbn [ticksTaken]. lia.
  - rewrite Hclosed. cbn [final logged trace]. rewrite ticksRun_app. cbn. lia.
Qed.

(** C9. After a Stop that stopped a running service, Start succeeds and
    spawns a ticker loop, but the stop channel is still closed, so the
    stop case is ready at every select of that loop and no select can
    block.  Whatever its selects take, the loop is therefore never left
    parked: it returns through the stop case, its deferred Stop closes the
    closed channel, and the goroutine ends in a panic with the ticker nil
    again.  The loop runs a tick only where a select finds a tick ready as
    well and takes it before the stop case is first taken; a loop whose
    first select finds no tick ready, or takes the stop case, runs no tick
    at all. *)
Theorem stopped_loop_cannot_be_restarted σ σ1 :
  ticker (svc σ) <> None ->
  Stop σ = Ok tt σ1 ->
  exists σ2,
    Start σ1 = Ok None σ2 /\
    tickLoopsSpawned (trace σ2) = S (tickLoopsSpawned (trace σ1)) /\
    tickerStop (svc σ2) = ChanClosed /\
    (forall wakes σ3, runAutomationTickerLoop wakes σ2 <> Ok Parked σ3) /\
    (forall wakes,
       exists σ3,
         runAutomationTickerLoop wakes σ2 = Panic CloseOfClosedChannel σ3 /\
         ticker (svc σ3) = None /\
         tickerStop (svc σ3) = ChanClosed) /\
    (forall wakes,
       (ticksRun (trace (final (runAutomationTickerLoop wakes σ2)))
        <= ticksRun (trace σ2) + ticksTaken wakes)%nat) /\
    ticksRun (trace (final (runAutomationTickerLoop [] σ2)))
    = ticksRun (trace σ2) /\
    (forall wakes,
       ticksRun (trace (final (runAutomationTickerLoop (WakeStop :: wakes) σ2)))
       = ticksRun (trace σ2)).
Proof.
  intros Ht Hstop.
  destruct (Stop_closes σ σ1 Ht Hstop) as [Ht1 Hc1].
  rewrite Start_run, Ht1.
  eexists. split; [done|].
  set (σ2 := withSvc _ _).
  assert (Hc2 : tickerStop (svc σ2) = ChanClosed) by done.
  assert (Ht2 : ticker (svc σ2) <> None) by done.
  set (σl := logged σ2 [EvLog Info MsgRunningLoop]).
  set (body := fun wakes => (refreshLightStates ;; tickerSelectLoop wakes) σl).
  assert (Hrun : forall wakes,
            runAutomationTickerLoop wakes σ2
            = Panic CloseOfClosedChannel
                (withSvc (set_ticker None)
                   (logged (final (body wakes))
                      [EvLog Info MsgStopping; EvTickerStop]))).
  { intros wakes. unfold runAutomationTickerLoop.
    rewrite bind_run. change (logf Info MsgRunningLoop σ2) with (Ok tt σl).
    cbv beta iota.
    rewrite deferLoop_run.
    pose proof (loopBody_sameWiring wakes σl) as (_ & Htk & Hts & _).
    pose proof (fun σ' => loopBody_closed wakes σl σ' Hc2) as Hnp.
    unfold body.
    destruct ((refreshLightStates ;; tickerSelectLoop wakes) σl)
      as [[] σb|p σb]; cbn [final] in Htk, Hts |- *.
    - rewrite Stop_run, Htk, Hts. cbn [σl logged svc].
      destruct (ticker (svc σ2)); [by rewrite Hc2|done].
    - by destruct (Hnp σb).
    - rewrite Stop_run, Htk, Hts. cbn [σl logged svc].
      destruct (ticker (svc σ2)); [by rewrite Hc2|done]. }
  assert (Hticks : forall wakes,
            (ticksRun (trace σ2)
             <= ticksRun (trace (final (runAutomationTickerLoop wakes σ2)))
             <= ticksRun (trace σ2) + ticksTaken wakes)%nat).
  { intros wakes. rewrite Hrun. cbn [final withSvc logged trace].
    assert (Hl : ticksRun (trace σl) = ticksRun (trace σ2)).
    { unfold σl. cbn [logged trace]. rewrite ticksRun_app. cbn. lia. }
    assert (Hb : (ticksRun (trace σl) <= ticksRun (trace (final (body wakes)))
                  <= ticksRun (trace σl) + ticksTaken wakes)%nat).
    { unfold body. rewrite bind_run.
      pose proof (refreshLightStates_sameWiring σl) as (_ & _ & Hts & _).
      pose proof (refreshLightStates_extends σl) as Hext.
      apply (extends_countEv _ isTickLog) in Hext;
        [|by intros [[] []| | | | | | | | | | |]].
      fold (ticksRun (trace (final (refreshLightStates σl)))) in Hext.
      fold (ticksRun (trace σl)) in Hext.
      destruct (refreshLightStates σl) as [[] σr|p σr];
        cbn [final] in Hts, Hext |- *; [|lia].
      pose proof (tickerSelectLoop_ticks wakes σr) as Hloop.
      rewrite Hts in Hloop. specialize (Hloop Hc2). lia. }
    rewrite ticksRun_app.
    assert (ticksRun [EvLog Info MsgStopping; EvTickerStop] = 0%nat) as ->
      by done.
    lia. }
  split; [|split; [done|split; [|split; [|split; [|split]]]]].
  - unfold σ2. cbn [withSvc logged trace].
    unfold tickLoopsSpawned. rewrite countEv_app. cbn. lia.
  - intros wakes σ3. by rewrite Hrun.
  - intros wakes. rewrite Hrun. eexists. split; [done|].
    cbn [withSvc logged svc set_ticker ticker tickerStop]. split; [done|].
    pose proof (loopBody_sameWiring wakes σl) as (_ & _ & Hts & _).
    fold (body wakes) in Hts. by rewrite Hts.
  - intros wakes. apply Hticks.
  - pose proof (Hticks []) as Hb. cbn [ticksTaken] in Hb. lia.
  - intros wakes. pose proof (Hticks (WakeStop :: wakes)) as Hb.
    cbn [ticksTaken] in Hb. lia.
Qed.

(** *** The shutdown handshake *)

Lemma acceptLoop_passes_over pre rest conns σ :
  Forall (fun r => passedOver r = true) pre ->
  acceptLoop (pre ++ rest) conns σ
  = acceptLoop rest (conns + connsOf pre) (logged σ (acceptLog <$> pre)).
Proof.
  intros Hpre. revert conns σ.
  induction Hpre as [|r pre Hr _ IH]; intros conns σ.
  { cbn. rewrite Nat.add_0_r. unfold logged. rewrite app_nil_r. by destruct σ. }
  destruct r as [|e|data]; [done| |]; cbn [app acceptLoop]; mred.
  - rewrite IH. unfold logged, connsOf. cbn [trace world svc evsvc fmap list_fmap].
    by rewrite <- app_assoc.
  - cbn in Hr. apply negb_true_iff in Hr. rewrite Hr.
    rewrite IH. unfold logged, connsOf.
    cbn [trace world svc evsvc fmap list_fmap List.filter isConn length].
    by rewrite <- app_assoc, Nat.add_succ_r.
Qed.

Lemma closeConns_run conns σ :
  closeConns conns σ = Ok tt (logged σ (replicate conns EvConnClose)).
Proof.
  revert σ. induction conns as [|n IH]; intros σ; cbn [closeConns]; mred.
  - unfold logged. cbn. rewrite app_nil_r. by destruct σ.
  - rewrite IH. unfold logged. cbn. by rewrite <- app_assoc.
Qed.

Lemma countEv_passedOver p (pre : list AcceptResult) :
  (forall r, p (acceptLog r) = false) ->
  countEv p (acceptLog <$> pre) = 0%nat.
Proof.
  intros Hp. unfold countEv. induction pre as [|r pre IH]; [done|].
  cbn. by rewrite Hp.
Qed.

Lemma countEv_replicate p n e :
  p e = false -> countEv p (replicate n e) = 0%nat.
Proof.
  intros Hp. unfold countEv. induction n as [|n IH]; [done|].
  cbn. by rewrite Hp.
Qed.

Lemma Stop_spec σ :
  ticker (svc σ) = None \/ tickerStop (svc σ) = ChanOpen ->
  exists σs d,
    Stop σ = Ok tt σs /\
    trace σs = trace σ ++ d /\
    (d = [EvLog Warn MsgNotRunning] \/ d = [EvLog Info MsgStopping; EvTickerStop]) /\
    config (svc σs) = config (svc σ) /\
    lightStates (svc σs) = lightStates (svc σ) /\
    ticker (svc σs) = None /\
    evsvc σs = evsvc σ.
Proof.
  intros Hlife. rewrite Stop_run.
  destruct (ticker (svc σ)) eqn:Ht.
  - destruct Hlife as [?|Hopen]; [done|]. rewrite Hopen.
    eexists _, _. split; [done|]. split; [done|]. split; [by right|]. done.
  - eexists _, _. split; [done|]. split; [done|]. split; [by left|]. done.
Qed.

Lemma StopAndTurnOffLights_run σ :
  StopAndTurnOffLights σ =
  match Stop σ with
  | Ok _ σs =>
      match setLightsState false σs with
      | Ok _ σp => Ok None σp
      | Panic p σp => Panic p σp
      end
  | Panic p σs => Panic p σs
  end.
Proof.
  unfold StopAndTurnOffLights. rewrite !bind_run.
  destruct (Stop σ) as [[] σs|p σs]; [|done].
  rewrite bind_run. by destruct (setLightsState false σs) as [[] σp|p σp].
Qed.

Lemma serveShutdown_run σ σp :
  StopAndTurnOffLights (logged σ [EvLog Info MsgReceivedShutdown]) = Ok None σp ->
  stopChan (evsvc σp) = Some ChanOpen ->
  serveShutdown σ = Ok Returned (logged σp [EvSendStop]).
Proof.
  intros Hrun Hchan. unfold serveShutdown. rewrite bind_run.
  change (logf Info MsgReceivedShutdown σ)
    with (Ok tt (logged σ [EvLog Info MsgReceivedShutdown]) : Outcome W unit).
  cbv beta iota. rewrite bind_run, Hrun. mred. rewrite Hchan.
  cbn [send_stopChan]. by mred.
Qed.

Lemma acceptLoop_shutdown post conns σ :
  acceptLoop (AcceptConn EVENT_TYPE_SHUTDOWN :: post) conns σ
  = defer (closeConns (S conns)) serveShutdown
      (logged σ [EvLog Info MsgListening]).
Proof.
  cbn [acceptLoop]. rewrite bind_run.
  change (logf Info MsgListening σ)
    with (Ok tt (logged σ [EvLog Info MsgListening]) : Outcome W unit).
  cbv beta iota. by rewrite bool_decide_eq_true_2.
Qed.

(** C3. Let the listener goroutine be handed any accept errors and other
    connections and then a connection carrying the shutdown payload, with
    the stop channel of main supplied and open, every light addressed by
    id, and the service either stopped or running with its stop channel
    open.  Then, whatever else is waiting to be accepted, the goroutine
    enters Stop, makes the turn-off pass and signals main, in that order
    and once each, closes its connections and the listener, removes the
    socket and returns: nothing that arrives afterwards is served. *)
Theorem shutdown_is_served_once σ pre post :
  Forall (fun r => passedOver r = true) pre ->
  allByID (config (svc σ)) ->
  ticker (svc σ) = None \/ tickerStop (svc σ) = ChanOpen ->
  stopChan (evsvc σ) = Some ChanOpen ->
  exists σs σp σ',
    Stop (logged σ ((acceptLog <$> pre)
                    ++ [EvLog Info MsgListening; EvLog Info MsgReceivedShutdown]))
    = Ok tt σs /\
    setLightsState false σs = Ok tt σp /\
    eventLoop (pre ++ AcceptConn EVENT_TYPE_SHUTDOWN :: post) σ = Ok Returned σ' /\
    trace σ' = trace σp ++ [EvSendStop]
               ++ replicate (S (connsOf pre)) EvConnClose
               ++ [EvLog Info MsgClosingListener; EvListenerClose; EvRemoveSocket] /\
    shutdownsServed (trace σ') = S (shutdownsServed (trace σ)) /\
    stopCalls (trace σ') = S (stopCalls (trace σ)) /\
    stopSignals (trace σ') = S (stopSignals (trace σ)) /\
    ticker (svc σ') = None /\
    listener (evsvc σ') = Some ListenerClosed.
Proof.
  intros Hpre Hall Hlife Hchan.
  set (σr := logged σ (_ ++ _)).
  destruct (Stop_spec σr Hlife) as (σs & ds & Hstop & Htrs & Hds & Hcfg & _ & Htk & Hev).
  destruct (setLightsState_spec false σs) as (σp & Hpass & _); [by rewrite Hcfg|].
  pose proof (setLightsState_extends false σs) as Hext.
  pose proof (setLightsState_sameControl false σs) as (_ & Htk' & _ & _ & Hev').
  rewrite Hpass in Hext, Htk', Hev'. cbn [final] in Hext, Htk', Hev'.
  exists σs, σp. eexists. split; [done|]. split; [done|].
  assert (Hrun : eventLoop (pre ++ AcceptConn EVENT_TYPE_SHUTDOWN :: post) σ
                 = Ok Returned
                     (withEvsvc (set_listener (Some ListenerClosed))
                        (logged σp
                           ([EvSendStop]
                            ++ replicate (S (connsOf pre)) EvConnClose
                            ++ [EvLog Info MsgClosingListener; EvListenerClose;
                                EvRemoveSocket])))).
  { unfold eventLoop. rewrite deferLoop_run.
    rewrite (acceptLoop_passes_over pre _ 0 σ Hpre), acceptLoop_shutdown.
    cbn [Nat.add]. unfold defer.
    rewrite (serveShutdown_run _ σp).
    - rewrite closeConns_run. mred. unfold close_listener. mred.
      unfold withEvsvc, logged. cbn [world svc evsvc trace].
      by rewrite <- !app_assoc.
    - assert (Hsr : logged (logged (logged σ (acceptLog <$> pre))
                              [EvLog Info MsgListening])
                      [EvLog Info MsgReceivedShutdown] = σr).
      { unfold σr, logged. cbn [world svc evsvc trace].
        by rewrite <- !app_assoc. }
      by rewrite Hsr, StopAndTurnOffLights_run, Hstop, Hpass.
    - by rewrite Hev', Hev. }
  split; [exact Hrun|].
  cbn [withEvsvc logged trace svc evsvc set_listener listener].
  split; [done|].
  assert (Hcount : forall p,
            (forall e, isPassEv false e = true -> p e = false) ->
            (forall r, p (acceptLog r) = false) ->
            p EvConnClose = false -> p (EvLog Info MsgClosingListener) = false ->
            p EvListenerClose = false -> p EvRemoveSocket = false ->
            countEv p (trace σp ++ [EvSendStop]
                       ++ replicate (S (connsOf pre)) EvConnClose
                       ++ [EvLog Info MsgClosingListener; EvListenerClose;
                           EvRemoveSocket])
            = (countEv p (trace σ)
               + countEv p [EvLog Info MsgListening; EvLog Info MsgReceivedShutdown]
               + countEv p ds + countEv p [EvSendStop])%nat).
  { intros p Hp1 Hp2 Hp3 Hp4 Hp5 Hp6.
    rewrite !countEv_app, (countEv_replicate p _ _ Hp3).
    rewrite (extends_countEv _ p σs σp Hext Hp1), Htrs.
    unfold σr. cbn [logged trace].
    rewrite !countEv_app, (countEv_passedOver p pre Hp2).
    assert (countEv p [EvLog Info MsgClosingListener; EvListenerClose;
                       EvRemoveSocket] = 0%nat) as ->; [|lia].
    unfold countEv. cbn [List.filter]. by rewrite Hp4, Hp5, Hp6. }
  split; [|split; [|split; [|split; [congruence|done]]]].
  - unfold shutdownsServed. rewrite Hcount; try done.
    + destruct Hds as [-> | ->]; cbn; lia.
    + by intros [[] []| | | | | | | | | | |].
    + by intros [].
  - unfold stopCalls. rewrite Hcount; try done.
    + destruct Hds as [-> | ->]; cbn; lia.
    + by intros [[] []| | | | | | | | | | |].
    + by intros [].
  - unfold stopSignals. rewrite Hcount; try done.
    + destruct Hds as [-> | ->]; cbn; lia.
    + by intros [[] []| | | | | | | | | | |].
    + by intros [].
Qed.

(** *** A whole tick *)

Lemma runAutomation_spec σ :
  allByID (config (svc σ)) ->
  neverEmpty W ->
  exists σr σ',
    (if refreshDue σ then refreshLightStates (atCheck σ) = Ok tt σr
     else σr = atCheck σ) /\
    config (svc σr) = config (svc σ) /\
    commandPhase (tickTime σ) σr = Ok tt σ' /\
    runAutomation σ = Ok tt σ'.
Proof.
  intros Hall Hne. rewrite runAutomation_run, bind_run.
  destruct (refreshDue σ) eqn:Hdue.
  - destruct (refreshLightStates_total (atCheck σ) Hall Hne)
      as (σp & σr & d & _ & Href & _).
    pose proof (refreshLightStates_sameConfig (atCheck σ)) as Hcfg.
    rewrite Href in Hcfg. cbn [final] in Hcfg.
    destruct (commandPhase_spec (tickTime σ) σr) as (σ' & Hok & _);
      [by rewrite Hcfg|].
    exists σr, σ'. rewrite Href. done.
  - mred.
    destruct (commandPhase_spec (tickTime σ) (atCheck σ) Hall) as (σ' & Hok & _).
    by exists (atCheck σ), σ'.
Qed.

Lemma switchCalls_atCheck b id σ :
  switchCalls b id (trace (atCheck σ)) = switchCalls b id (trace σ).
Proof. unfold atCheck. cbn [withWorld logged trace]. apply switchCalls_log. Qed.

Lemma switchCalls_refreshLightStates b id σ :
  switchCalls b id (trace (final (refreshLightStates σ)))
  = switchCalls b id (trace σ).
Proof.
  apply (extends_countEv _ _ _ _ (refreshLightStates_extends σ)).
  by intros [[] []| | | | | | | | | | |].
Qed.

Lemma commandPhase_calls tickT σ :
  allByID (config (svc σ)) ->
  exists σ',
    commandPhase tickT σ = Ok tt σ' /\
    let times := sunrise_SunriseSunset
                   (config.Latitude (config.location (config (svc σ))))
                   (config.Longitude (config.location (config (svc σ))))
                   (time_Now (world σ)).1 in
    let night := isNight tickT times.1 times.2 in
    forall id,
      switchCalls night id (trace σ')
      = (switchCalls night id (trace σ)
         + if commanded night (config.Lights (config (svc σ))) σ id
           then 1 else 0)%nat /\
      switchCalls (negb night) id (trace σ')
      = switchCalls (negb night) id (trace σ) /\
      lightState (svc σ') id
      = if bool_decide (Some id ∈ config.ID <$> config.Lights (config (svc σ)))
        then night else lightState (svc σ) id.
Proof.
  intros Hall. rewrite commandPhase_run. cbv zeta.
  set (night := isNight _ _ _).
  set (τ := withWorld _ _).
  destruct (setLightsState_spec night τ Hall) as (σ' & Hok & Hcount & Hcache).
  pose proof (setLightsState_never_opposite night τ) as Hopp.
  rewrite Hok in Hopp. cbn [final] in Hopp.
  exists σ'. split; [done|].
  intros id. specialize (Hcount id). specialize (Hcache id). specialize (Hopp id).
  unfold τ in Hcount, Hcache, Hopp.
  cbn [withWorld logged svc trace] in Hcount, Hcache, Hopp.
  by rewrite switchCalls_log in Hcount, Hopp.
Qed.

(** X1. A tick first refreshes the cache when that is due, then reads
    sunrise and sunset for the date the clock then shows, and then drives
    every configured light to the phase of the tick: a light gets one
    command of the phase when the cache, as the refresh left it, holds the
    opposite state, and none otherwise; no light gets a command of the
    other phase; afterwards every configured light is cached in the phase
    and every other entry is as the refresh left it. *)
Theorem tick_drives_lights_to_phase σ :
  allByID (config (svc σ)) ->
  neverEmpty W ->
  exists σr σ',
    runAutomation σ = Ok tt σ' /\
    (if refreshDue σ then refreshLightStates (atCheck σ) = Ok tt σr
     else σr = atCheck σ) /\
    let times := sunrise_SunriseSunset
                   (config.Latitude (config.location (config (svc σ))))
                   (config.Longitude (config.location (config (svc σ))))
                   (time_Now (world σr)).1 in
    let night := isNight (tickTime σ) times.1 times.2 in
    forall id,
      switchCalls night id (trace σ')
      = (switchCalls night id (trace σ)
         + if commanded night (config.Lights (config (svc σ))) σr id
           then 1 else 0)%nat /\
      switchCalls (negb night) id (trace σ')
      = switchCalls (negb night) id (trace σ) /\
      lightState (svc σ') id
      = if bool_decide (Some id ∈ config.ID <$> config.Lights (config (svc σ)))
        then night else lightState (svc σr) id.
Proof.
  intros Hall Hne.
  destruct (runAutomation_spec σ Hall Hne) as (σr & σ' & Hr & Hcfg & Hcmd & Hrun).
  exists σr, σ'. split; [done|]. split; [done|].
  assert (Hcalls : forall b id,
            switchCalls b id (trace σr) = switchCalls b id (trace σ)).
  { intros b id. destruct (refreshDue σ).
    - pose proof (switchCalls_refreshLightStates b id (atCheck σ)) as Hs.
      rewrite Hr in Hs. cbn [final] in Hs. by rewrite Hs, switchCalls_atCheck.
    - subst σr. apply switchCalls_atCheck. }
  destruct (commandPhase_calls (tickTime σ) σr) as (σ'' & Hok & Hid);
    [by rewrite Hcfg|].
  rewrite Hcmd in Hok. injection Hok as <-.
  cbv zeta in Hid |- *. rewrite Hcfg in Hid.
  intros id. specialize (Hid id). by rewrite !Hcalls in Hid.
Qed.

(** *** What a refresh writes *)

Lemma fetchedState_app id (a b : list Event) :
  fetchedState id (a ++ b)
  = match fetchedState id b with
    | Some on => Some on
    | None => fetchedState id a
    end.
Proof.
  unfold fetchedState. rewrite omap_app.
  destruct (omap (fetchedOn id) b) as [|x l] using rev_ind.
  - by rewrite app_nil_r.
  - by rewrite app_assoc, !last_snoc.
Qed.

Lemma lookup_lightStates_set s id id' on :
  lightStates (set_lightState id' on s) !! id
  = if bool_decide (id' = id) then Some on else lightStates s !! id.
Proof.
  cbn. case_bool_decide as E.
  - subst. apply lookup_insert_eq.
  - by apply lookup_insert_ne.
Qed.

Lemma refreshPass_caches lights σ :
  Forall (fun l => config.ID l <> None) lights ->
  neverEmpty W ->
  exists σ' d,
    forRange lights refreshLightState σ = Ok tt σ' /\
    trace σ' = trace σ ++ d /\
    forall id,
      lightStates (svc σ') !! id
      = match fetchedState id d with
        | Some on => Some on
        | None => lightStates (svc σ) !! id
        end.
Proof.
  intros Hall Hne. revert σ.
  induction Hall as [|l lights Hl _ IH]; intros σ.
  { exists σ, []. cbn. by rewrite app_nil_r. }
  rewrite forRange_cons.
  destruct (refreshLightState_step l σ)
    as [Hid|id r e w Hid Hc|id w Hid Hc|id item w Hid Hc]; [done| | |].
  - destruct (IH (withWorld w (logged σ [EvGetOneLightById id (r, Some e);
                                          EvLog Warn (MsgRefreshFailed id e)])))
      as (σ' & d & Hok & Htr & Hcache).
    exists σ', ([EvGetOneLightById id (r, Some e);
                 EvLog Warn (MsgRefreshFailed id e)] ++ d).
    split; [done|]. split.
    { rewrite Htr. cbn [withWorld logged trace]. by rewrite <- app_assoc. }
    intros id'. rewrite Hcache, fetchedState_app.
    destruct (fetchedState id' d); [done|].
    unfold fetchedState. cbn. by destruct r.
  - by destruct (neverEmpty_fetch id (world σ) w Hne).
  - destruct (IH (withSvc
                    (set_lightState id (hueclient.On (hueclient.OnState item)))
                    (withWorld w
                       (logged σ [EvGetOneLightById id (Some item, None)]))))
      as (σ' & d & Hok & Htr & Hcache).
    exists σ', ([EvGetOneLightById id (Some item, None)] ++ d).
    split; [done|]. split.
    { rewrite Htr. cbn [withSvc withWorld logged trace]. by rewrite <- app_assoc. }
    intros id'. rewrite Hcache, fetchedState_app.
    destruct (fetchedState id' d); [done|].
    cbn [withSvc withWorld logged svc]. rewrite lookup_lightStates_set.
    unfold fetchedState. cbn. by case_bool_decide.
Qed.

(** X2. A refresh pass fetches every configured light, in configuration
    order, and afterwards the cache holds for every light what its last
    successful fetch of the pass reported; the entry of a light with no
    successful fetch in the pass (a failed fetch, or a light that is not
    configured) is as before.  The pass ends by stamping the time of the
    refresh. *)
Theorem refresh_caches_what_the_bridge_reports σ :
  allByID (config (svc σ)) ->
  neverEmpty W ->
  exists σ' d t,
    refreshLightStates σ = Ok tt σ' /\
    trace σ' = trace σ ++ d ++ [EvRefreshStamp t] /\
    fetchedIDs d = lightIDs (config (svc σ)) /\
    lastLightStateRefresh (svc σ') = t /\
    forall id,
      lightStates (svc σ') !! id
      = match fetchedState id d with
        | Some on => Some on
        | None => lightStates (svc σ) !! id
        end.
Proof.
  intros Hall Hne.
  destruct (refreshPass_caches _ σ Hall Hne) as (σp & d & Hloop & Htr & Hcache).
  destruct (refreshPass_spec _ σ Hall Hne) as (σp' & d' & Hloop' & Htr' & Hids & _).
  rewrite Hloop in Hloop'. injection Hloop' as <-.
  rewrite Htr in Htr'. apply app_inv_head in Htr'. subst d'.
  rewrite refreshLightStates_run, Hloop.
  eexists _, d, _. split; [done|].
  cbn [withSvc withWorld logged trace svc lastLightStateRefresh
       set_lastLightStateRefresh lightStates].
  split; [by rewrite Htr, <- app_assoc|]. done.
Qed.

Lemma refreshPass_panics lights σ :
  Forall (fun l => config.ID l <> None) lights ->
  exists d,
    trace (final (forRange lights refreshLightState σ)) = trace σ ++ d /\
    (panicked (forRange lights refreshLightState σ) = true
     <-> Exists (fun e => isEmptyFetch e = true) d).
Proof.
  intros Hall. revert σ.
  induction Hall as [|l lights Hl _ IH]; intros σ.
  { exists []. cbn. rewrite app_nil_r. split; [done|].
    split; [done|]. by intros ?%Exists_nil. }
  rewrite forRange_cons.
  destruct (refreshLightState_step l σ)
    as [Hid|id r e w Hid Hc|id w Hid Hc|id item w Hid Hc]; [done| | |].
  - set (τ := withWorld _ _).
    destruct (IH τ) as (d & Htr & Hp).
    exists ([EvGetOneLightById id (r, Some e);
             EvLog Warn (MsgRefreshFailed id e)] ++ d).
    split.
    { rewrite Htr. unfold τ. cbn [withWorld logged trace]. by rewrite <- app_assoc. }
    rewrite Hp, Exists_app. split; [by right|].
    intros [He|He]; [|done].
    apply Exists_cons in He as [He|He]; [by destruct r|].
    apply Exists_cons in He as [He|He]; [done|by apply Exists_nil in He].
  - exists [EvGetOneLightById id (None, None)]. split; [done|].
    split; [intros _; by apply Exists_cons_hd|done].
  - set (τ := withSvc _ _).
    destruct (IH τ) as (d & Htr & Hp).
    exists ([EvGetOneLightById id (Some item, None)] ++ d).
    split.
    { rewrite Htr. unfold τ. cbn [withSvc withWorld logged trace].
      by rewrite <- app_assoc. }
    rewrite Hp, Exists_app. split; [by right|].
    intros [He|He]; [|done].
    apply Exists_cons in He as [He|He]; [done|by apply Exists_nil in He].
Qed.

(** X3. With every light addressed by id, a refresh panics exactly when
    the bridge answers one of its fetches with neither a light nor an
    error.  The panic comes before the time of the refresh is stamped, and
    it takes a ticker loop that is just starting down with it. *)
Theorem refresh_panics_on_an_empty_answer σ :
  allByID (config (svc σ)) ->
  exists d,
    trace (final (refreshLightStates σ)) = trace σ ++ d /\
    (panicked (refreshLightStates σ) = true
     <-> Exists (fun e => isEmptyFetch e = true) d) /\
    (panicked (refreshLightStates σ) = true ->
       refreshLightStates σ
       = Panic NilPointerDereference (final (refreshLightStates σ)) /\
       refreshPasses (trace (final (refreshLightStates σ)))
       = refreshPasses (trace σ) /\
       lastLightStateRefresh (svc (final (refreshLightStates σ)))
       = lastLightStateRefresh (svc σ)) /\
    (panicked (refreshLightStates (logged σ [EvLog Info MsgRunningLoop])) = true ->
       forall wakes, panicked (runAutomationTickerLoop wakes σ) = true).
Proof.
  intros Hall.
  destruct (refreshPass_panics _ σ Hall) as (d & Htr & Hp).
  pose proof (forRange_sameControl refreshLightState
                (config.Lights (config (svc σ))) σ
                refreshLightState_sameControl) as (_ & _ & _ & Hlast & _).
  pose proof (refreshPass_extends (config.Lights (config (svc σ))) σ) as Hext.
  apply (extends_countEv _ isRefreshStamp) in Hext;
    [|by intros [[] []| | | | | | | | | | |]].
  assert (Hnil : forall p σ', forRange (config.Lights (config (svc σ)))
                                refreshLightState σ = Panic p σ' ->
                              p = NilPointerDereference).
  { clear. generalize (config.Lights (config (svc σ))). intros lights.
    revert σ. induction lights as [|l lights IH]; intros σ p σ'; [done|].
    rewrite forRange_cons.
    destruct (refreshLightState_step l σ); try (by intros [= <- _]); apply IH. }
  assert (Hstart : panicked (refreshLightStates
                               (logged σ [EvLog Info MsgRunningLoop])) = true ->
                   forall wakes, panicked (runAutomationTickerLoop wakes σ) = true).
  { intros Hpl wakes. unfold runAutomationTickerLoop.
    rewrite bind_run.
    change (logf Info MsgRunningLoop σ)
      with (Ok tt (logged σ [EvLog Info MsgRunningLoop])).
    cbv beta iota. rewrite deferLoop_run, bind_run.
    destruct (refreshLightStates _) as [[] σr|p σr]; [done|].
    by destruct (Stop σr). }
  rewrite refreshLightStates_run.
  destruct (forRange _ refreshLightState σ) as [[] σp|p σp] eqn:Hloop;
    cbn [final panicked] in *.
  - exists (d ++ [EvRefreshStamp (time_Now (world σp)).1]).
    cbn [withSvc withWorld logged trace]. rewrite Htr, <- app_assoc.
    split; [done|]. split; [|split; [done|exact Hstart]].
    rewrite Exists_app, <- Hp. split; [done|].
    intros [?|He]; [done|].
    apply Exists_cons in He as [He|He]; [done|by apply Exists_nil in He].
  - exists d. split; [done|]. split; [done|]. split; [|exact Hstart].
    intros _. by rewrite (Hnil _ _ eq_refl).
Qed.

(** *** The ticker loop and Stop *)

Lemma tickerSelectLoop_parks wakes σ :
  allByID (config (svc σ)) ->
  neverEmpty W ->
  ticker (svc σ) <> None ->
  tickerStop (svc σ) = ChanOpen ->
  exists σ',
    tickerSelectLoop wakes σ = Ok Parked σ' /\
    sameWiring σ σ' /\
    ticksRun (trace σ') = (ticksRun (trace σ) + ticksIn wakes)%nat /\
    stopCalls (trace σ') = stopCalls (trace σ) /\
    (refreshPasses (trace σ) <= refreshPasses (trace σ'))%nat.
Proof.
  intros Hall Hne. revert σ Hall.
  induction wakes as [|w rest IH]; intros σ Hall Ht Hc;
    rewrite tickerSelectLoop_run; destruct (ticker (svc σ)) eqn:Htk; try done.
  { rewrite Hc. exists σ. split; [done|]. split; [apply sameWiring_refl|].
    unfold ticksIn. cbn. split; [lia|done]. }
  destruct w.
  - destruct (runAutomation_spec σ Hall Hne) as (_ & σ1 & _ & _ & _ & Hrun).
    pose proof (runAutomation_sameWiring σ) as Hw.
    pose proof (runAutomation_counts σ) as (Hticks & Hstops & Hpass).
    rewrite Hrun in Hw, Hticks, Hstops, Hpass |- *.
    cbn [final] in Hw, Hticks, Hstops, Hpass.
    destruct Hw as (Hcfg & Htk1 & Hts1 & Hev1).
    destruct (IH σ1) as (σ' & Hok & Hw' & Hticks' & Hstops' & Hpass');
      [by rewrite Hcfg|by rewrite Htk1, Htk|by rewrite Hts1|].
    exists σ'. split; [done|]. split.
    { eapply sameWiring_trans; [|exact Hw']. by repeat split. }
    rewrite Hticks', Hstops', Hticks, Hstops. unfold ticksIn. cbn.
    split; [lia|]. split; [done|lia].
  - rewrite Hc.
    destruct (IH σ Hall) as (σ' & Hok & Hw' & Hticks' & Hstops' & Hpass');
      [by rewrite Htk|done|].
    exists σ'. split; [done|]. split; [done|].
    unfold ticksIn in *. cbn [List.filter isWakeTick]. done.
Qed.

(** X4. A running service whose stop channel is open keeps its ticker loop
    going: whatever wakes the loop, and whatever the bridge answers (as
    long as it never answers with neither a light nor an error), the
    goroutine refreshes the cache, runs one tick for every tick of the
    ticker, never calls Stop, leaves the ticker and the stop channel as
    they are, and ends up parked in the select again. *)
Theorem ticker_loop_parks_until_stopped σ wakes :
  allByID (config (svc σ)) ->
  neverEmpty W ->
  ticker (svc σ) <> None ->
  tickerStop (svc σ) = ChanOpen ->
  exists σ',
    runAutomationTickerLoop wakes σ = Ok Parked σ' /\
    sameWiring σ σ' /\
    (refreshPasses (trace σ) < refreshPasses (trace σ'))%nat /\
    ticksRun (trace σ') = (ticksRun (trace σ) + ticksIn wakes)%nat /\
    stopCalls (trace σ') = stopCalls (trace σ).
Proof.
  intros Hall Hne Ht Hc. unfold runAutomationTickerLoop.
  rewrite bind_run.
  set (σl := logged σ [EvLog Info MsgRunningLoop]).
  change (logf Info MsgRunningLoop σ) with (Ok tt σl). cbv beta iota.
  rewrite deferLoop_run, bind_run.
  destruct (refreshLightStates_total σl Hall Hne)
    as (σp & σr & d & Hloop & Href & Htr & _ & _ & _ & Htr').
  rewrite Href.
  pose proof (refreshLightStates_sameWiring σl) as Hw.
  pose proof (refreshLightStates_extends σl) as Hext.
  rewrite Href in Hw, Hext. cbn [final] in Hw, Hext.
  destruct Hw as (Hcfg & Htk & Hts & Hev).
  destruct (tickerSelectLoop_parks wakes σr)
    as (σ' & Hok & Hw' & Hticks & Hstops & Hpass);
    [by rewrite Hcfg|done|by rewrite Htk|by rewrite Hts|].
  rewrite Hok. exists σ'. split; [done|]. split.
  { eapply sameWiring_trans; [|exact Hw']. by repeat split. }
  assert (Hnone : forall p, p (EvLog Info MsgRunningLoop) = false ->
            (forall e, isFetchEv e || isRefreshStamp e = true -> p e = false) ->
            countEv p (trace σr) = countEv p (trace σ)).
  { intros p Hp Hq. rewrite (extends_countEv _ p _ _ Hext Hq).
    unfold σl. cbn [logged trace]. rewrite countEv_app. cbn. rewrite Hp.
    cbn. lia. }
  split; [|split].
  - assert (refreshPasses (trace σr) = S (refreshPasses (trace σ))); [|lia].
    unfold refreshPasses. rewrite Htr', countEv_app.
    pose proof (refreshPass_extends (config.Lights (config (svc σl))) σl) as Hf.
    rewrite Hloop in Hf. cbn [final] in Hf.
    rewrite (extends_countEv _ isRefreshStamp _ _ Hf)
      by (by intros [[] []| | | | | | | | | | |]).
    unfold σl. cbn [logged trace]. rewrite countEv_app. cbn. lia.
  - rewrite Hticks. unfold ticksRun. rewrite Hnone; [done|done|].
    by intros [[] []| | | | | | | | | | |].
  - rewrite Hstops. unfold stopCalls. rewrite Hnone; [done|done|].
    by intros [[] []| | | | | | | | | | |].
Qed.

Lemma Stop_not_running σ :
  ticker (svc σ) = None ->
  Stop σ = Ok tt (logged σ [EvLog Warn MsgNotRunning]).
Proof. intros Ht. by rewrite Stop_run, Ht. Qed.

Lemma resume_stop_closed wakes σ :
  ticker (svc σ) = None ->
  tickerStop (svc σ) = ChanClosed ->
  resumeTickerLoop (WakeStop :: wakes) σ
  = Ok Returned (logged σ [EvLog Info MsgStoppingPeriodic;
                           EvLog Warn MsgNotRunning]).
Proof.
  intros Ht Hc. unfold resumeTickerLoop. rewrite deferLoop_run.
  cbn [tickerLoopWoken]. mred. rewrite Hc. mred.
  rewrite Stop_not_running by done.
  unfold logged. cbn [world svc evsvc trace]. by rewrite <- app_assoc.
Qed.

Lemma setLightsState_keeps_stopped turnOn σ σ' :
  setLightsState turnOn σ = Ok tt σ' ->
  ticker (svc σ') = ticker (svc σ) /\ tickerStop (svc σ') = tickerStop (svc σ).
Proof.
  intros Hok. pose proof (setLightsState_sameControl turnOn σ) as Hs.
  rewrite Hok in Hs. by destruct Hs as (_ & ? & ? & _).
Qed.

(** X5. Stopping a running service ends its parked ticker loop cleanly.
    After Stop, and just as well after StopAndTurnOffLights, the goroutine
    woken by the closed stop channel logs that it stops, returns, and its
    deferred Stop finds the service stopped and only warns: no tick is run
    and the bridge is not called. *)
Theorem stop_ends_the_parked_loop σ :
  ticker (svc σ) <> None ->
  tickerStop (svc σ) = ChanOpen ->
  (exists σ1,
     Stop σ = Ok tt σ1 /\
     forall wakes,
       resumeTickerLoop (WakeStop :: wakes) σ1
       = Ok Returned (logged σ1 [EvLog Info MsgStoppingPeriodic;
                                 EvLog Warn MsgNotRunning])) /\
  (allByID (config (svc σ)) ->
   exists σ1,
     StopAndTurnOffLights σ = Ok None σ1 /\
     forall wakes,
       resumeTickerLoop (WakeStop :: wakes) σ1
       = Ok Returned (logged σ1 [EvLog Info MsgStoppingPeriodic;
                                 EvLog Warn MsgNotRunning])).
Proof.
  intros Ht Hc.
  destruct (Stop_spec σ (or_intror Hc))
    as (σs & d & Hstop & _ & _ & Hcfg & _ & _ & _).
  destruct (Stop_closes σ σs Ht Hstop) as [Ht1 Hc1].
  split.
  - exists σs. split; [done|]. intros wakes. by apply resume_stop_closed.
  - intros Hall. rewrite StopAndTurnOffLights_run, Hstop.
    destruct (setLightsState_spec false σs) as (σ1 & Hok & _);
      [by rewrite Hcfg|].
    rewrite Hok. exists σ1. split; [done|]. intros wakes.
    destruct (setLightsState_keeps_stopped false σs σ1 Hok) as [Ht2 Hc2].
    apply resume_stop_closed; congruence.
Qed.

Lemma resume_tick_stopped wakes σ σ' :
  ticker (svc σ) = None ->
  runAutomation σ = Ok tt σ' ->
  resumeTickerLoop (WakeTick :: wakes) σ
  = Panic NilPointerDereference (logged σ' [EvLog Warn MsgNotRunning]).
Proof.
  intros Ht Hrun. unfold resumeTickerLoop. rewrite deferLoop_run.
  cbn [tickerLoopWoken]. rewrite bind_run, Hrun.
  pose proof (runAutomation_sameWiring σ) as (_ & Ht' & _).
  rewrite Hrun in Ht'. cbn [final] in Ht'. rewrite Ht in Ht'.
  rewrite tickerSelectLoop_run, Ht'.
  by rewrite Stop_not_running.
Qed.

(** X6. Once Stop has stopped a running service, its ticker loop cannot
    reach the select again without a panic: s.ticker is nil, so a loop that
    comes back from a tick dereferences a nil pointer there, whatever
    would have woken it next.  A goroutine that was parked when Stop came
    and is woken by a tick still left in the ticker's channel runs that
    tick on the stopped service and then panics in the same way. *)
Theorem loop_panics_at_the_select_after_stop σ σ1 :
  ticker (svc σ) <> None ->
  Stop σ = Ok tt σ1 ->
  (forall wakes,
     deferLoop Stop (tickerSelectLoop wakes) σ1
     = Panic NilPointerDereference (logged σ1 [EvLog Warn MsgNotRunning])) /\
  (allByID (config (svc σ)) ->
   neverEmpty W ->
   forall wakes,
     exists σ2,
       runAutomation σ1 = Ok tt σ2 /\
       resumeTickerLoop (WakeTick :: wakes) σ1
       = Panic NilPointerDereference (logged σ2 [EvLog Warn MsgNotRunning]) /\
       ticksRun (trace σ2) = S (ticksRun (trace σ1))).
Proof.
  intros Ht Hstop.
  destruct (Stop_closes σ σ1 Ht Hstop) as [Ht1 Hc1].
  split.
  - intros wakes. rewrite deferLoop_run, tickerSelectLoop_run, Ht1.
    by rewrite Stop_not_running.
  - intros Hall Hne wakes.
    assert (Hcfg : config (svc σ1) = config (svc σ)).
    { rewrite Stop_run in Hstop.
      destruct (ticker (svc σ)); [|done].
      destruct (tickerStop (svc σ)); [|done]. by injection Hstop as <-. }
    destruct (runAutomation_spec σ1) as (_ & σ2 & _ & _ & _ & Hrun);
      [by rewrite Hcfg|done|].
    exists σ2. split; [done|]. split; [by apply resume_tick_stopped|].
    pose proof (runAutomation_counts σ1) as (Hticks & _).
    by rewrite Hrun in Hticks.
Qed.

(** X7. A tick that is taken after StopAndTurnOffLights undoes it at
    night.  When the ticker goroutine, parked while the shutdown request
    was served, is woken by a tick left in the ticker's channel, and that
    tick needs no refresh and falls in the night, it commands every
    configured light on again, once each, and only then does the loop
    panic at its select. *)
Theorem late_tick_switches_lights_back_on σ σ1 :
  allByID (config (svc σ)) ->
  neverEmpty W ->
  ticker (svc σ) <> None ->
  StopAndTurnOffLights σ = Ok None σ1 ->
  refreshDue σ1 = false ->
  (let times := sunrise_SunriseSunset
                  (config.Latitude (config.location (config (svc σ))))
                  (config.Longitude (config.location (config (svc σ))))
                  (time_Now (world (atCheck σ1))).1 in
   isNight (tickTime σ1) times.1 times.2 = true) ->
  forall wakes,
    exists σ2,
      resumeTickerLoop (WakeTick :: wakes) σ1
      = Panic NilPointerDereference (logged σ2 [EvLog Warn MsgNotRunning]) /\
      forall id,
        configured σ id ->
        lightState (svc σ1) id = false /\
        turnOnCalls id (trace (logged σ2 [EvLog Warn MsgNotRunning]))
        = S (turnOnCalls id (trace σ1)) /\
        lightState (svc σ2) id = true.
Proof.
  intros Hall Hne Ht Hoff Hdue Hnight wakes. cbv zeta in Hnight.
  rewrite StopAndTurnOffLights_run in Hoff.
  destruct (Stop σ) as [[] σs|p σs] eqn:Hstop; [|done].
  destruct (Stop_closes σ σs Ht Hstop) as [Ht1 Hc1].
  assert (Hcfgs : config (svc σs) = config (svc σ)).
  { rewrite Stop_run in Hstop.
    destruct (ticker (svc σ)); [|done].
    destruct (tickerStop (svc σ)); [|done]. by injection Hstop as <-. }
  destruct (setLightsState_spec false σs) as (σ1' & Hok & _ & Hcache);
    [by rewrite Hcfgs|].
  rewrite Hok in Hoff. injection Hoff as ->.
  destruct (setLightsState_keeps_stopped false σs σ1 Hok) as [Ht2 _].
  pose proof (setLightsState_sameControl false σs) as (Hcfg1 & _).
  rewrite Hok in Hcfg1. cbn [final] in Hcfg1.
  assert (Hcfg : config (svc σ1) = config (svc σ)) by congruence.
  assert (Hall1 : allByID (config (svc σ1))) by (by rewrite Hcfg).
  destruct (commandPhase_calls (tickTime σ1) (atCheck σ1) Hall1)
    as (σ2 & Hrun & Hids).
  cbv zeta in Hids. cbn [atCheck withWorld logged svc] in Hids.
  exists σ2. split.
  { apply resume_tick_stopped; [congruence|].
    by rewrite runAutomation_no_refresh. }
  intros id Hin. unfold configured in Hin.
  assert (Hoffid : lightState (svc σ1) id = false).
  { rewrite Hcache, Hcfgs. by rewrite bool_decide_eq_true_2. }
  split; [done|].
  destruct (Hids id) as (Hcount & _ & Hstate).
  rewrite Hcfg in Hcount, Hstate.
  change (time_Now (time_Now (world σ1)).2).2
    with (world (atCheck σ1)) in Hcount, Hstate.
  rewrite Hnight in Hcount, Hstate.
  rewrite bool_decide_eq_true_2 in Hstate by done.
  split; [|done].
  cbn [logged trace]. unfold turnOnCalls. rewrite switchCalls_log, Hcount.
  rewrite switchCalls_atCheck.
  unfold commanded, atCheck. cbn [withWorld logged svc].
  rewrite Hoffid, !bool_decide_eq_true_2 by done.
  cbn. lia.
Qed.

(** *** The listener without a shutdown request *)



Lemma serveShutdown_outcome σ σp :
  StopAndTurnOffLights (logged σ [EvLog Info MsgReceivedShutdown]) = Ok None σp ->
  serveShutdown σ
  = match stopChan (evsvc σp) with
    | Some ChanOpen => Ok Returned (logged σp [EvSendStop])
    | Some ChanClosed => Panic SendOnClosedChannel σp
    | None => Ok Returned σp
    end.
Proof.
  intros Hrun. unfold serveShutdown. rewrite bind_run.
  change (logf Info MsgReceivedShutdown σ)
    with (Ok tt (logged σ [EvLog Info MsgReceivedShutdown]) : Outcome W unit).
  cbv beta iota. rewrite bind_run, Hrun. mred.
  destruct σp as [w s e tr]. cbn [evsvc].
  destruct (stopChan e) as [[]|]; cbn [send_stopChan]; by mred.
Qed.

(** X9. A shutdown request is served in full even when main cannot be
    told: the light service is stopped and the turn-off pass is made
    first.  With no stop channel (nil) the goroutine then returns without
    a signal.  With a stop channel that main has already closed, the send
    panics; the deferred calls still close the connections and the
    listener and remove the socket. *)
Theorem shutdown_without_a_live_stop_channel σ pre post :
  Forall (fun r => passedOver r = true) pre ->
  allByID (config (svc σ)) ->
  ticker (svc σ) = None \/ tickerStop (svc σ) = ChanOpen ->
  stopChan (evsvc σ) <> Some ChanOpen ->
  exists σp,
    StopAndTurnOffLights
      (logged σ ((acceptLog <$> pre)
                 ++ [EvLog Info MsgListening; EvLog Info MsgReceivedShutdown]))
    = Ok None σp /\
    let σ' := withEvsvc (set_listener (Some ListenerClosed))
                (logged σp (replicate (S (connsOf pre)) EvConnClose
                            ++ [EvLog Info MsgClosingListener; EvListenerClose;
                                EvRemoveSocket])) in
    eventLoop (pre ++ AcceptConn EVENT_TYPE_SHUTDOWN :: post) σ
    = match stopChan (evsvc σ) with
      | None => Ok Returned σ'
      | Some _ => Panic SendOnClosedChannel σ'
      end /\
    stopSignals (trace σ') = stopSignals (trace σ) /\
    ticker (svc σ') = None.
Proof.
  intros Hpre Hall Hlife Hchan.
  set (σr := logged σ (_ ++ _)).
  destruct (Stop_spec σr Hlife)
    as (σs & ds & Hstop & Htrs & Hds & Hcfg & _ & Htk & Hev).
  destruct (setLightsState_spec false σs) as (σp & Hpass & _); [by rewrite Hcfg|].
  pose proof (setLightsState_extends false σs) as Hext.
  pose proof (setLightsState_sameControl false σs) as (_ & Htk' & _ & _ & Hev').
  rewrite Hpass in Hext, Htk', Hev'. cbn [final] in Hext, Htk', Hev'.
  assert (Hoff : StopAndTurnOffLights σr = Ok None σp).
  { by rewrite StopAndTurnOffLights_run, Hstop, Hpass. }
  exists σp. split; [exact Hoff|]. cbv zeta.
  split; [|split].
  - unfold eventLoop. rewrite deferLoop_run.
    rewrite (acceptLoop_passes_over pre _ 0 σ Hpre), acceptLoop_shutdown.
    cbn [Nat.add]. unfold defer.
    assert (Hsr : logged (logged (logged σ (acceptLog <$> pre))
                            [EvLog Info MsgListening])
                    [EvLog Info MsgReceivedShutdown] = σr).
    { unfold σr, logged. cbn [world svc evsvc trace]. by rewrite <- !app_assoc. }
    rewrite (serveShutdown_outcome _ σp) by (by rewrite Hsr).
    rewrite Hev', Hev. unfold σr. cbn [logged evsvc].
    destruct (stopChan (evsvc σ)) as [[]|]; [done| |];
      rewrite closeConns_run; mred; unfold close_listener; mred;
      unfold withEvsvc, logged; cbn [world svc evsvc trace];
      by rewrite <- !app_assoc.
  - cbn [withEvsvc logged trace]. unfold stopSignals.
    rewrite !countEv_app, countEv_replicate by done.
    rewrite (extends_countEv _ isSendStop σs σp Hext)
      by (by intros [[] []| | | | | | | | | | |]).
    rewrite Htrs. unfold σr. cbn [logged trace].
    rewrite !countEv_app, countEv_passedOver by (by intros []).
    destruct Hds as [-> | ->]; cbn; lia.
  - cbn [withEvsvc logged svc]. congruence.
Qed.

(** *** Leaving through main *)

Lemma events_Stop_run σ :
  events_Stop σ =
  match listener (evsvc σ) with
  | Some _ =>
      Ok None (withEvsvc (set_listener (Some ListenerClosed))
                 (logged σ [EvLog Info MsgStoppingEvents;
                            EvLog Info MsgClosingListener; EvListenerClose]))
  | None => Ok None (logged σ [EvLog Info MsgStoppingEvents])
  end.
Proof.
  unfold events_Stop. mred. destruct σ as [w s e tr]. cbn [evsvc].
  destruct (listener e); mred; [|done].
  unfold close_listener. mred.
  unfold withEvsvc, logged. cbn [world svc evsvc trace].
  by rewrite <- !app_assoc.
Qed.

(** X10. App.Stop, which is all that Run does for the lights when the
    process is interrupted, never talks to the bridge: it stops the light
    service and closes the listener, and every light stays as it is, both
    at the bridge and in the cache.  On a service that was started again
    after a Stop it panics on the closed stop channel before the listener
    is closed. *)
Theorem app_stop_leaves_the_lights_alone σ :
  (ticker (svc σ) = None \/ tickerStop (svc σ) = ChanOpen ->
   exists σ',
     app_Stop σ = Ok None σ' /\
     world σ' = world σ /\
     lightStates (svc σ') = lightStates (svc σ) /\
     countEv isBridgeCall (trace σ') = countEv isBridgeCall (trace σ) /\
     ticker (svc σ') = None /\
     listener (evsvc σ')
     = match listener (evsvc σ) with
       | Some _ => Some ListenerClosed
       | None => None
       end) /\
  (ticker (svc σ) <> None -> tickerStop (svc σ) = ChanClosed ->
   exists σ',
     app_Stop σ = Panic CloseOfClosedChannel σ' /\
     world σ' = world σ /\
     listener (evsvc σ') = listener (evsvc σ)).
Proof.
  split.
  - intros Hlife. unfold app_Stop. rewrite bind_run, Stop_run.
    destruct (ticker (svc σ)) eqn:Ht.
    + destruct Hlife as [?|Hopen]; [done|]. rewrite Hopen.
      rewrite bind_run, events_Stop_run. cbn [withSvc logged evsvc].
      destruct (listener (evsvc σ)) eqn:Hl; mred; eexists; (split; [done|]);
        cbn [withEvsvc withSvc logged world svc evsvc trace lightStates
             ticker set_listener set_ticker set_tickerStop listener];
        rewrite !countEv_app, ?Hl; cbn; repeat split; lia.
    + rewrite bind_run, events_Stop_run. cbn [logged evsvc].
      destruct (listener (evsvc σ)) eqn:Hl; mred; eexists; (split; [done|]);
        cbn [withEvsvc withSvc logged world svc evsvc trace lightStates
             ticker set_listener listener];
        rewrite !countEv_app, ?Ht, ?Hl; cbn; repeat split; lia.
  - intros Ht Hc. unfold app_Stop. rewrite bind_run, Stop_run.
    destruct (ticker (svc σ)); [|done]. rewrite Hc. by eexists.
Qed.

End Properties.

(** ** The properties on the simulated bridge *)

(** C1, at the input where the code departs from it. At nine in the
    evening, with L1 off and cached as off, the bridge loses L1 and the
    turn-on command of the tick fails.  The tick logs the failure and
    caches L1 as on all the same, while the light is still off; the next
    tick, one second later and with the bridge reachable again, finds L1
    cached as on and skips it instead of sending the command again. *)
Theorem failed_command_is_cached_as_done :
  let σ1 := final (runAutomation nightUnreachable) in
  let σ2 := final (runAutomation (later time.Second (reachableAgain σ1))) in
  lightState (svc nightUnreachable) "L1" = false /\
  drop (length (trace nightUnreachable)) (trace σ1)
  = [EvLog Info (MsgTick 75600002000000);
     EvLog Info (MsgSunriseSunset 21600000000000 72000000000000);
     EvLog Info MsgNighttime;
     EvTurnOnLightById "L1" (Some "bridge unreachable"%string);
     EvLog Error (MsgTurnOnFailed "L1" "bridge unreachable")] /\
  lightState (svc σ1) "L1" = true /\
  actual (world σ1) !! "L1"%string = Some false /\
  drop (length (trace σ1)) (trace σ2)
  = [EvLog Info (MsgTick 75601006000000);
     EvLog Info (MsgSunriseSunset 21600000000000 72000000000000);
     EvLog Info MsgNighttime;
     EvLog Info (MsgAlreadyOn "L1")] /\
  actual (world σ2) !! "L1"%string = Some false.
Proof. vm_compute. by repeat split. Qed.

(** C2, refuted as stated. At noon L1 is on (someone switched it on by
    hand after the last refresh) while the cache still says off:
    StopAndTurnOffLights returns without having sent L1 a turn-off
    command, and L1 stays on. *)
Lemma stop_and_turn_off_leaves_light_on :
  config.Lights (config (svc noonSwitchedOn)) = [byID "L1"] /\
  actual (world noonSwitchedOn) !! "L1"%string = Some true /\
  panicked (StopAndTurnOffLights noonSwitchedOn) = false /\
  turnOffCalls "L1" (trace (final (StopAndTurnOffLights noonSwitchedOn))) = 0%nat /\
  actual (world (final (StopAndTurnOffLights noonSwitchedOn))) !! "L1"%string
  = Some true.
Proof. vm_compute. by repeat split. Qed.

(** *** The simulated bridge is a well-behaved world *)

Lemma Sim_neverEmpty : neverEmpty Sim.
Proof.
  intros id w. cbn. unfold Sim_Get.
  case_bool_decide; [done|]. by destruct (actual w !! id).
Qed.

Lemma Sim_monotoneClock : monotoneClock clock.
Proof.
  unfold monotoneClock, Sim_latency, time.Nanosecond. cbn.
  unfold Sim_Get, Sim_Switch, Sim_elapse, Sim_latency, time.Nanosecond.
  repeat split; intros; cbn;
    repeat case_bool_decide; repeat case_match; cbn; lia.
Qed.

Lemma allByID_byID (ids : list string) : allByID (cfgOf (byID <$> ids)).
Proof. unfold allByID. cbn. induction ids; by constructor. Qed.

(** *** The theorems at work *)

(* C2 at a running service whose lights are on and cached as on: both
   are sent a turn-off command. *)
Lemma stop_and_turn_off_consults_cache_witness :
  exists σ',
    StopAndTurnOffLights nightRunning = Ok None σ' /\
    (turnOffCalls "L1" (trace nightRunning) < turnOffCalls "L1" (trace σ'))%nat /\
    (turnOffCalls "L2" (trace nightRunning) < turnOffCalls "L2" (trace σ'))%nat.
Proof.
  destruct (stop_and_turn_off_consults_cache nightRunning)
    as (σs & σ' & _ & _ & Hrun & _ & _ & Hon & _).
  - exact (allByID_byID ["L1"; "L2"]%string).
  - right. vm_compute. reflexivity.
  - exists σ'. split; [exact Hrun|].
    split; apply Hon; vm_compute; try reflexivity.
    + apply list_elem_of_here.
    + apply list_elem_of_further, list_elem_of_here.
Defined.

(* C3: the listener is handed an accept error, a ping and two shutdown
   requests while the service runs; it serves one. *)
Lemma shutdown_is_served_once_witness :
  exists σ',
    eventLoop incomingTwice nightRunning = Ok Returned σ' /\
    shutdownsServed (trace σ') = S (shutdownsServed (trace nightRunning)) /\
    stopCalls (trace σ') = S (stopCalls (trace nightRunning)) /\
    stopSignals (trace σ') = S (stopSignals (trace nightRunning)).
Proof.
  destruct (shutdown_is_served_once nightRunning
              [AcceptErr "interrupted"; AcceptConn "ping"]
              [AcceptConn EVENT_TYPE_SHUTDOWN])
    as (σs & σp & σ' & _ & _ & Hrun & _ & H1 & H2 & H3 & _).
  - repeat constructor.
  - exact (allByID_byID ["L1"; "L2"]%string).
  - right. vm_compute. reflexivity.
  - vm_compute. reflexivity.
  - exists σ'. split; [exact Hrun|]. split; [exact H1|]. split; [exact H2|exact H3].
Defined.

(* C4 with sunrise at 06:00 and sunset at 20:00. *)
Lemma day_night_classification_witness :
  isNight (6 * Hour) (6 * Hour) (20 * Hour) = false /\
  isNight (20 * Hour) (6 * Hour) (20 * Hour) = false /\
  isNight (6 * Hour - 1) (6 * Hour) (20 * Hour) = true /\
  isNight (20 * Hour + 1) (6 * Hour) (20 * Hour) = true.
Proof.
  destruct (day_night_classification (12 * Hour) (6 * Hour) (20 * Hour))
    as (_ & Hday & Hnight).
  destruct Hday as [H1 H2]; [vm_compute; congruence|].
  destruct (Hnight 1) as [H3 H4]; [lia|].
  split; [exact H1|]. split; [exact H2|]. split; [exact H3|exact H4].
Defined.


(* C6 at a running service: the tick right after the first one does not
   refresh, the tick six minutes later refreshes once, and a tick one
   second after that one does not refresh again. *)
Lemma tick_refreshes_after_five_minutes_witness :
  (exists σ',
     runAutomation nightRunning = Ok tt σ' /\
     refreshPasses (trace σ') = refreshPasses (trace nightRunning)) /\
  (exists σ',
     runAutomation (later (6 * time.Minute) nightRunning) = Ok tt σ' /\
     refreshPasses (trace σ') = S (refreshPasses (trace nightRunning)) /\
     refreshDue (later time.Second σ') = false).
Proof.
  split.
  - destruct (tick_refreshes_after_five_minutes nightRunning)
      as (σ' & Hrun & _ & Hn & _).
    + exact (allByID_byID ["L1"; "L2"]%string).
    + exact Sim_neverEmpty.
    + exists σ'. split; [exact Hrun|].
      refine (eq_trans Hn _). vm_compute. reflexivity.
  - destruct (tick_refreshes_after_five_minutes
                (later (6 * time.Minute) nightRunning))
      as (σ' & Hrun & _ & Hn & _ & _ & Hmono).
    + exact (allByID_byID ["L1"; "L2"]%string).
    + exact Sim_neverEmpty.
    + pose proof (f_equal final Hrun) as E. cbn [final] in E. subst σ'.
      eexists. split; [exact Hrun|]. split.
      * refine (eq_trans Hn _). vm_compute. reflexivity.
      * destruct (Hmono clock Sim_monotoneClock) as [_ Hnext];
          [vm_compute; reflexivity|].
        apply Hnext; [vm_compute; reflexivity|].
        vm_compute. congruence.
Defined.

(* C7 at a running service when the bridge has lost L1: both lights are
   fetched, the entry of L1 stays, the time of the last refresh moves. *)
Lemma refresh_survives_failed_fetches_witness :
  exists σ',
    refreshLightStates (unreachableNow ["L1"%string] nightRunning) = Ok tt σ' /\
    fetchedIDs (drop (length (trace nightRunning)) (trace σ')) = ["L1"; "L2"]%string /\
    lightStates (svc σ') !! "L1"%string
    = lightStates (svc nightRunning) !! "L1"%string /\
    lastLightStateRefresh (svc nightRunning) < lastLightStateRefresh (svc σ').
Proof.
  destruct (refresh_survives_failed_fetches
              (unreachableNow ["L1"%string] nightRunning))
    as (σp & σ' & d & Hloop & Hrun & Htr & Hids & Hkeep & _ & Hlast & Htr').
  - exact (allByID_byID ["L1"; "L2"]%string).
  - exact Sim_neverEmpty.
  - exists σ'. split; [exact Hrun|].
    assert (σ' = final (refreshLightStates
                          (unreachableNow ["L1"%string] nightRunning))) as ->
      by (by rewrite Hrun).
    vm_compute. repeat split; congruence.
Defined.


(* C9 at a running service: stopped and started again, its loop ends in
   a panic whatever its selects take; it runs no tick when the first
   select finds none ready, and at most the one tick that a select took
   before the stop case. *)
Lemma stopped_loop_cannot_be_restarted_witness :
  exists σ2 σ3 σ4,
    Start (final (Stop nightRunning)) = Ok None σ2 /\
    runAutomationTickerLoop [] σ2 = Panic CloseOfClosedChannel σ3 /\
    ticksRun (trace σ3) = ticksRun (trace σ2) /\
    runAutomationTickerLoop [WakeTick; WakeStop; WakeTick] σ2
    = Panic CloseOfClosedChannel σ4 /\
    (ticksRun (trace σ4) <= ticksRun (trace σ2) + 1)%nat.
Proof.
  destruct (stopped_loop_cannot_be_restarted nightRunning (final (Stop nightRunning)))
    as (σ2 & Hstart & _ & _ & _ & Hpanic & Hbound & Hnone & _).
  - vm_compute. congruence.
  - vm_compute. reflexivity.
  - destruct (Hpanic []) as (σ3 & Hσ3 & _).
    destruct (Hpanic [WakeTick; WakeStop; WakeTick]) as (σ4 & Hσ4 & _).
    exists σ2, σ3, σ4. split; [exact Hstart|]. split; [exact Hσ3|].
    split; [by rewrite <- Hnone, Hσ3|]. split; [exact Hσ4|].
    pose proof (Hbound [WakeTick; WakeStop; WakeTick]) as Hb.
    by rewrite Hσ4 in Hb.
Defined.

(* C10 with a light configured by name only. *)
Lemma name_only_light_panics_witness :
  config.validate (Some (config (svc nightNameOnly))) = None /\
  (exists σ', runAutomation nightNameOnly = Panic NilPointerDereference σ') /\
  panicked (runAutomationTickerLoop [WakeTick] nightNameOnly) = true.
Proof.
  destruct (name_only_light_panics nightNameOnly (byName "Lamp"))
    as (_ & _ & Htick & Hloop & _).
  - apply list_elem_of_further, list_elem_of_here.
  - reflexivity.
  - split; [reflexivity|]. split; [exact Htick|exact (Hloop [WakeTick])].
Defined.

(* X1 six minutes after the first tick, with L1 switched off by hand in
   the meantime: the tick refreshes, finds L1 off and commands it on once;
   L2 gets no command. *)
Lemma tick_drives_lights_to_phase_witness :
  exists σ',
    runAutomation nightL1SwitchedOff = Ok tt σ' /\
    turnOnCalls "L1" (trace σ') = S (turnOnCalls "L1" (trace nightL1SwitchedOff)) /\
    turnOnCalls "L2" (trace σ') = turnOnCalls "L2" (trace nightL1SwitchedOff) /\
    turnOffCalls "L1" (trace σ') = turnOffCalls "L1" (trace nightL1SwitchedOff) /\
    lightState (svc σ') "L1" = true.
Proof.
  destruct (tick_drives_lights_to_phase nightL1SwitchedOff)
    as (σr & σ' & Hrun & Hr & Hids).
  - exact (allByID_byID ["L1"; "L2"]%string).
  - exact Sim_neverEmpty.
  - assert (Hσr : σr = final (refreshLightStates (atCheck nightL1SwitchedOff))).
    { revert Hr.
      change (refreshDue nightL1SwitchedOff) with true.
      intros Hr. exact (eq_sym (f_equal final Hr)). }
    clear Hr. subst σr.
    exists σ'. split; [exact Hrun|].
    destruct (Hids "L1"%string) as (H1 & H1' & H1'').
    destruct (Hids "L2"%string) as (H2 & _).
    split; [refine (eq_trans H1 _); vm_compute; reflexivity|].
    split; [refine (eq_trans H2 _); vm_compute; reflexivity|].
    split; [exact H1'|].
    refine (eq_trans H1'' _). vm_compute. reflexivity.
Defined.

(* X2 at a running service after L1 was switched off by hand: the refresh
   fetches both lights and the cache follows the bridge. *)
Lemma refresh_caches_what_the_bridge_reports_witness :
  exists σ',
    refreshLightStates (switchedByHand "L1" false nightRunning) = Ok tt σ' /\
    lightStates (svc nightRunning) !! "L1"%string = Some true /\
    lightStates (svc σ') !! "L1"%string = Some false /\
    lightStates (svc σ') !! "L2"%string = Some true.
Proof.
  destruct (refresh_caches_what_the_bridge_reports
              (switchedByHand "L1" false nightRunning))
    as (σ' & d & t & Hrun & _).
  - exact (allByID_byID ["L1"; "L2"]%string).
  - exact Sim_neverEmpty.
  - exists σ'. split; [exact Hrun|].
    pose proof (f_equal final Hrun) as E. cbn [final] in E. subst σ'.
    vm_compute. repeat split; congruence.
Defined.

(* X3 at a service whose bridge has forgotten L2: L1 is fetched and
   cached, the fetch of L2 comes back empty and the refresh panics before
   it stamps the time; the ticker loop that opens with this refresh ends
   in a panic. *)
Lemma refresh_panics_on_an_empty_answer_witness :
  allByID (config (svc nightForgotten)) /\
  exists d,
    trace (final (refreshLightStates nightForgotten))
    = trace nightForgotten ++ d /\
    Exists (fun e => isEmptyFetch e = true) d /\
    refreshLightStates nightForgotten
    = Panic NilPointerDereference (final (refreshLightStates nightForgotten)) /\
    refreshPasses (trace (final (refreshLightStates nightForgotten)))
    = refreshPasses (trace nightForgotten) /\
    lastLightStateRefresh (svc (final (refreshLightStates nightForgotten)))
    = lastLightStateRefresh (svc nightForgotten) /\
    panicked (runAutomationTickerLoop [WakeTick] nightForgotten) = true.
Proof.
  split; [exact (allByID_byID ["L1"; "L2"]%string)|].
  destruct (refresh_panics_on_an_empty_answer nightForgotten
              (allByID_byID ["L1"; "L2"]%string))
    as (d & Htr & Hiff & Hpanic & Hloop).
  assert (Hp : panicked (refreshLightStates nightForgotten) = true)
    by (vm_compute; reflexivity).
  exists d. split; [exact Htr|].
  split; [exact (proj1 Hiff Hp)|].
  destruct (Hpanic Hp) as (Hnil & Hpasses & Hlast).
  split; [exact Hnil|]. split; [exact Hpasses|]. split; [exact Hlast|].
  apply Hloop. vm_compute. reflexivity.
Defined.

(* X4 at a service that was just started, whose loop is woken by two ticks
   and a spurious stop case. *)
Lemma ticker_loop_parks_until_stopped_witness :
  exists σ',
    runAutomationTickerLoop [WakeTick; WakeStop; WakeTick]
      (final (Start nightTwoLights)) = Ok Parked σ' /\
    ticksRun (trace σ') = 2%nat /\
    stopCalls (trace σ') = 0%nat.
Proof.
  destruct (ticker_loop_parks_until_stopped (final (Start nightTwoLights))
              [WakeTick; WakeStop; WakeTick])
    as (σ' & Hrun & _ & _ & Hticks & Hstops).
  - exact (allByID_byID ["L1"; "L2"]%string).
  - exact Sim_neverEmpty.
  - vm_compute. congruence.
  - vm_compute. reflexivity.
  - exists σ'. split; [exact Hrun|].
    split; [exact Hticks|exact Hstops].
Defined.

(* X5 at a running service. *)
Lemma stop_ends_the_parked_loop_witness :
  (exists σ1,
     Stop nightRunning = Ok tt σ1 /\
     resumeTickerLoop [WakeStop; WakeTick] σ1
     = Ok Returned (logged σ1 [EvLog Info MsgStoppingPeriodic;
                               EvLog Warn MsgNotRunning])) /\
  (exists σ1,
     StopAndTurnOffLights nightRunning = Ok None σ1 /\
     resumeTickerLoop [WakeStop] σ1
     = Ok Returned (logged σ1 [EvLog Info MsgStoppingPeriodic;
                               EvLog Warn MsgNotRunning])).
Proof.
  destruct (stop_ends_the_parked_loop nightRunning) as [Hstop Hoff].
  - vm_compute. congruence.
  - vm_compute. reflexivity.
  - split.
    + destruct Hstop as (σ1 & Hrun & Hloop).
      exists σ1. split; [exact Hrun|exact (Hloop [WakeTick])].
    + destruct (Hoff (allByID_byID ["L1"; "L2"]%string)) as (σ1 & Hrun & Hloop).
      exists σ1. split; [exact Hrun|exact (Hloop [])].
Defined.

(* X6 at a running service that is stopped while its loop is busy or
   parked. *)
Lemma loop_panics_at_the_select_after_stop_witness :
  deferLoop Stop (tickerSelectLoop [WakeStop]) (final (Stop nightRunning))
  = Panic NilPointerDereference
      (logged (final (Stop nightRunning)) [EvLog Warn MsgNotRunning]) /\
  exists σ2,
    resumeTickerLoop [WakeTick; WakeStop] (final (Stop nightRunning))
    = Panic NilPointerDereference (logged σ2 [EvLog Warn MsgNotRunning]) /\
    ticksRun (trace σ2) = S (ticksRun (trace (final (Stop nightRunning)))).
Proof.
  destruct (loop_panics_at_the_select_after_stop nightRunning
              (final (Stop nightRunning))) as [Hbusy Hparked].
  - vm_compute. congruence.
  - vm_compute. reflexivity.
  - split; [exact (Hbusy [WakeStop])|].
    destruct (Hparked (allByID_byID ["L1"; "L2"]%string) Sim_neverEmpty [WakeStop])
      as (σ2 & _ & Hrun & Hticks).
    exists σ2. split; [exact Hrun|exact Hticks].
Defined.

(* X7 that evening: the shutdown request switched L1 and L2 off, and the
   late tick switches both on again. *)
Lemma late_tick_switches_lights_back_on_witness :
  actual (world nightShutDown) !! "L1"%string = Some false /\
  exists σ2,
    resumeTickerLoop [WakeTick] nightShutDown
    = Panic NilPointerDereference (logged σ2 [EvLog Warn MsgNotRunning]) /\
    turnOnCalls "L1" (trace (logged σ2 [EvLog Warn MsgNotRunning]))
    = S (turnOnCalls "L1" (trace nightShutDown)) /\
    lightState (svc σ2) "L2" = true.
Proof.
  split; [vm_compute; reflexivity|].
  destruct (late_tick_switches_lights_back_on nightRunning nightShutDown)
    with (wakes := @nil Wake) as (σ2 & Hrun & Hids).
  - exact (allByID_byID ["L1"; "L2"]%string).
  - exact Sim_neverEmpty.
  - vm_compute. congruence.
  - vm_compute. reflexivity.
  - vm_compute. reflexivity.
  - vm_compute. reflexivity.
  - exists σ2. split; [exact Hrun|].
    destruct (Hids "L1"%string) as (_ & H1 & _);
      [apply list_elem_of_here|].
    destruct (Hids "L2"%string) as (_ & _ & H2);
      [apply list_elem_of_further, list_elem_of_here|].
    split; [exact H1|exact H2].
Defined.


(* X9 at a running service whose stop channel main has closed. *)
Lemma shutdown_without_a_live_stop_channel_witness :
  exists σ',
    eventLoop [AcceptConn "ping"; AcceptConn EVENT_TYPE_SHUTDOWN] nightMainGone
    = Panic SendOnClosedChannel σ' /\
    stopSignals (trace σ') = stopSignals (trace nightMainGone) /\
    ticker (svc σ') = None.
Proof.
  destruct (shutdown_without_a_live_stop_channel nightMainGone
              [AcceptConn "ping"] [])
    as (σp & _ & Hrun & Hsig & Htk).
  - repeat constructor.
  - exact (allByID_byID ["L1"; "L2"]%string).
  - right. vm_compute. reflexivity.
  - vm_compute. congruence.
  - eexists. split; [exact Hrun|]. split; [exact Hsig|exact Htk].
Defined.

(* X10 at a running service whose lights are on, and at one that was
   started again after a Stop. *)
Lemma app_stop_leaves_the_lights_alone_witness :
  (exists σ',
     app_Stop nightRunning = Ok None σ' /\
     actual (world σ') !! "L1"%string = Some true /\
     lightStates (svc σ') = lightStates (svc nightRunning)) /\
  (exists σ',
     app_Stop (final (Start (final (Stop nightRunning))))
     = Panic CloseOfClosedChannel σ').
Proof.
  split.
  - destruct (app_stop_leaves_the_lights_alone nightRunning) as [Hstop _].
    destruct Hstop as (σ' & Hrun & Hw & Hcache & _);
      [right; vm_compute; reflexivity|].
    exists σ'. split; [exact Hrun|]. split; [|exact Hcache].
    refine (eq_trans (f_equal (fun w => actual w !! "L1"%string) Hw) _).
    vm_compute. reflexivity.
  - destruct (app_stop_leaves_the_lights_alone
                (final (Start (final (Stop nightRunning))))) as [_ Hpanic].
    destruct Hpanic as (σ' & Hrun & _);
      [vm_compute; congruence|vm_compute; reflexivity|].
    exists σ'. exact Hrun.
Defined.
